(** * Offers API: brands, locations, offers and the offer/location link

    Shallow embedding of [src/offers/offers.service.ts],
    [src/common/utils.ts], the newest [LocationsService] and the
    entities, over a small model of the DynamoDB calls they make. *)

From Stdlib Require Import ZArith String Ascii Bool.
From stdpp Require Import base gmap sets list strings.

Open Scope Z_scope.

(** ** Entities ([dynamodb/entities]) *)

(** A linked-id collection as [hasItem] types it:
    [Set<T> | T[] | undefined]. *)
Inductive Coll :=
| Undefined
| SetColl (s : gset string)
| ArrColl (l : list string).

Record Offer := mkOffer {
  o_id : string;
  o_name : string;
  o_brandId : string;
  description : string;
  locationIds : option (gset string);   (* locationIds?: Set<string> *)
  locationsTotal : Z;
  o_createdAt : string;
  o_updatedAt : string
}.

Record Location := mkLocation {
  l_id : string;
  l_brandId : string;
  l_name : string;
  nameLower : string;
  address : string;
  offerIds : Coll;                       (* offerIds?: Set<string> *)
  hasOffer : bool;
  l_createdAt : string;
  l_updatedAt : string
}.

Record Brand := mkBrand {
  b_id : string;
  b_name : string;
  b_nameLower : string;
  b_description : string;
  b_createdAt : string;
  b_updatedAt : string
}.

(** ** [common/utils.ts] *)

(** [hasItem(collection, item)]: [!collection] is false, [Set.has],
    [Array.includes] (on strings both compare by value). *)
Definition hasItem (collection : Coll) (item : string) : bool :=
  match collection with
  | Undefined => false
  | SetColl s => bool_decide (item ∈ s)
  | ArrColl l => existsb (String.eqb item) l
  end.

(** ** DynamoDB items, update and condition expressions *)

(** Attribute values the tables hold: string set, list, boolean,
    number, string. *)
Inductive AttrValue :=
| AV_SS (s : gset string)
| AV_L (l : list string)
| AV_BOOL (b : bool)
| AV_N (n : Z)
| AV_S (s : string).

Inductive TableName := LOCATIONS | OFFERS.

(** The fragment of the condition-expression language the service uses. *)
Inductive CondExpr :=
| attribute_not_exists (a : string)
| contains (a : string) (v : string)
| GtN (a : string) (n : Z)                  (* a > :n *)
| OrC (c1 c2 : CondExpr)
| AndC (c1 c2 : CondExpr)
| NotC (c : CondExpr).

Inductive SetRhs :=
| Val (v : AttrValue)                       (* SET a = :v *)
| PlusN (b : string) (n : Z)                (* SET a = b + :n *)
| MinusN (b : string) (n : Z).              (* SET a = b - :n *)

(** Clauses of an update expression. *)
Inductive UpdAction :=
| ADD (a : string) (v : gset string)
| DELETE (a : string) (v : gset string)
| SET (a : string) (rhs : SetRhs).

Record Update := mkUpdate {
  TableName_ : TableName;
  Key : string;
  UpdateExpression : list UpdAction;
  ConditionExpression : CondExpr
}.

(** The typed view of an item of one table: reading an attribute
    (None when absent), writing it (None when the record cannot hold
    that value) and the item an update creates from a bare key. *)
Class DynItem (T : Type) := {
  item_get : T -> string -> option AttrValue;
  item_put : T -> string -> option AttrValue -> option T;
  item_fresh : string -> T
}.

Definition coll_to_av (c : Coll) : option AttrValue :=
  match c with
  | Undefined => None
  | SetColl s => Some (AV_SS s)
  | ArrColl l => Some (AV_L l)
  end.

Definition av_to_coll (v : option AttrValue) : option Coll :=
  match v with
  | None => Some Undefined
  | Some (AV_SS s) => Some (SetColl s)
  | Some (AV_L l) => Some (ArrColl l)
  | _ => None
  end.

Definition av_str (v : option AttrValue) : option string :=
  match v with Some (AV_S s) => Some s | _ => None end.

#[global] Instance Location_item : DynItem Location := {
  item_get l a :=
    if String.eqb a "offerIds" then coll_to_av (offerIds l)
    else if String.eqb a "hasOffer" then Some (AV_BOOL (hasOffer l))
    else if String.eqb a "updatedAt" then Some (AV_S (l_updatedAt l))
    else if String.eqb a "brandId" then Some (AV_S (l_brandId l))
    else if String.eqb a "name" then Some (AV_S (l_name l))
    else if String.eqb a "nameLower" then Some (AV_S (nameLower l))
    else if String.eqb a "address" then Some (AV_S (address l))
    else if String.eqb a "createdAt" then Some (AV_S (l_createdAt l))
    else if String.eqb a "id" then Some (AV_S (l_id l))
    else None;
  item_put l a v :=
    if String.eqb a "offerIds" then
      c ← av_to_coll v;
      Some (mkLocation (l_id l) (l_brandId l) (l_name l) (nameLower l)
              (address l) c (hasOffer l) (l_createdAt l) (l_updatedAt l))
    else if String.eqb a "hasOffer" then
      match v with
      | Some (AV_BOOL b) =>
          Some (mkLocation (l_id l) (l_brandId l) (l_name l) (nameLower l)
                  (address l) (offerIds l) b (l_createdAt l) (l_updatedAt l))
      | _ => None
      end
    else if String.eqb a "updatedAt" then
      s ← av_str v;
      Some (mkLocation (l_id l) (l_brandId l) (l_name l) (nameLower l)
              (address l) (offerIds l) (hasOffer l) (l_createdAt l) s)
    else None;
  (* absent string attributes of a created item are read back as empty *)
  item_fresh k := mkLocation k EmptyString EmptyString EmptyString EmptyString Undefined false
                   EmptyString EmptyString
}.

#[global] Instance Offer_item : DynItem Offer := {
  item_get o a :=
    if String.eqb a "locationIds" then
      match locationIds o with Some s => Some (AV_SS s) | None => None end
    else if String.eqb a "locationsTotal" then Some (AV_N (locationsTotal o))
    else if String.eqb a "updatedAt" then Some (AV_S (o_updatedAt o))
    else if String.eqb a "brandId" then Some (AV_S (o_brandId o))
    else if String.eqb a "name" then Some (AV_S (o_name o))
    else if String.eqb a "description" then Some (AV_S (description o))
    else if String.eqb a "createdAt" then Some (AV_S (o_createdAt o))
    else if String.eqb a "id" then Some (AV_S (o_id o))
    else None;
  item_put o a v :=
    if String.eqb a "locationIds" then
      match v with
      | None => Some (mkOffer (o_id o) (o_name o) (o_brandId o) (description o)
                        None (locationsTotal o) (o_createdAt o) (o_updatedAt o))
      | Some (AV_SS s) =>
          Some (mkOffer (o_id o) (o_name o) (o_brandId o) (description o)
                  (Some s) (locationsTotal o) (o_createdAt o) (o_updatedAt o))
      | _ => None
      end
    else if String.eqb a "locationsTotal" then
      match v with
      | Some (AV_N n) =>
          Some (mkOffer (o_id o) (o_name o) (o_brandId o) (description o)
                  (locationIds o) n (o_createdAt o) (o_updatedAt o))
      | _ => None
      end
    else if String.eqb a "updatedAt" then
      s ← av_str v;
      Some (mkOffer (o_id o) (o_name o) (o_brandId o) (description o)
              (locationIds o) (locationsTotal o) (o_createdAt o) s)
    else None;
  item_fresh k := mkOffer k EmptyString EmptyString EmptyString None 0 EmptyString EmptyString
}.

Section Eval.
Context {T : Type} `{!DynItem T}.

Definition get_in (cur : option T) (a : string) : option AttrValue :=
  cur ≫= λ r, item_get r a.

(** Conditions are evaluated on the item as stored before the write;
    a comparison or [contains] on an absent attribute is false. *)
Fixpoint eval_cond (cur : option T) (c : CondExpr) : bool :=
  match c with
  | attribute_not_exists a =>
      match get_in cur a with None => true | Some _ => false end
  | contains a v =>
      match get_in cur a with
      | Some (AV_SS s) => bool_decide (v ∈ s)
      | Some (AV_L l) => existsb (String.eqb v) l
      | Some (AV_S s) => bool_decide (is_Some (String.index 0 v s))
      | _ => false
      end
  | GtN a n =>
      match get_in cur a with Some (AV_N m) => Z.ltb n m | _ => false end
  | OrC c1 c2 => eval_cond cur c1 || eval_cond cur c2
  | AndC c1 c2 => eval_cond cur c1 && eval_cond cur c2
  | NotC c1 => negb (eval_cond cur c1)
  end.

(** The new value of one clause, computed from the item before the
    update; None is a type error.  DELETE that empties a set removes
    the attribute (a set attribute is never empty). *)
Definition eval_action (cur : option T) (act : UpdAction)
  : option (string * option AttrValue) :=
  match act with
  | ADD a v =>
      match get_in cur a with
      | None => Some (a, Some (AV_SS v))
      | Some (AV_SS s) => Some (a, Some (AV_SS (s ∪ v)))
      | Some _ => None
      end
  | DELETE a v =>
      match get_in cur a with
      | None => Some (a, None)
      | Some (AV_SS s) =>
          Some (a, if bool_decide (s ∖ v = ∅) then None else Some (AV_SS (s ∖ v)))
      | Some _ => None
      end
  | SET a (Val v) => Some (a, Some v)
  | SET a (PlusN b n) =>
      match get_in cur b with
      | Some (AV_N m) => Some (a, Some (AV_N (m + n)))
      | _ => None
      end
  | SET a (MinusN b n) =>
      match get_in cur b with
      | Some (AV_N m) => Some (a, Some (AV_N (m - n)))
      | _ => None
      end
  end.

Fixpoint apply_actions (cur : option T) (acc : T) (acts : list UpdAction)
  : option T :=
  match acts with
  | [] => Some acc
  | act :: rest =>
      '(a, v) ← eval_action cur act;
      acc' ← item_put acc a v;
      apply_actions cur acc' rest
  end.

(** One [Update] of a transaction: None when its condition fails or
    its expression does not type; an update on a missing key creates
    the item. *)
Definition run_update (key : string) (cur : option T) (u : Update) : option T :=
  if eval_cond cur (ConditionExpression u)
  then apply_actions cur (default (item_fresh key) cur) (UpdateExpression u)
  else None.

End Eval.

(** ** The store *)

Record Db := mkDb {
  brands : gmap string Brand;
  locations : gmap string Location;
  offers : gmap string Offer
}.

(** Values a call can throw: Nest's [NotFoundException] and
    [ConflictException], other [Error] objects (name, message), and
    thrown values that are not [Error] instances. *)
Inductive Thrown :=
| NotFoundException (msg : string)
| ConflictException (msg : string)
| ErrorObj (name message : string)
| NonErrorValue (v : string).

Definition TransactionCanceledException : Thrown :=
  ErrorObj "TransactionCanceledException" "Transaction cancelled".

Inductive Write :=
| WLocation (k : string) (l : Location)
| WOffer (k : string) (o : Offer).

Definition prepare (d : Db) (u : Update) : option Write :=
  match TableName_ u with
  | LOCATIONS => WLocation (Key u) <$> run_update (Key u) (locations d !! Key u) u
  | OFFERS => WOffer (Key u) <$> run_update (Key u) (offers d !! Key u) u
  end.

Fixpoint prepare_all (d : Db) (us : list Update) : option (list Write) :=
  match us with
  | [] => Some []
  | u :: rest => w ← prepare d u; ws ← prepare_all d rest; Some (w :: ws)
  end.

Definition commit (d : Db) (w : Write) : Db :=
  match w with
  | WLocation k l => mkDb (brands d) (<[k := l]> (locations d)) (offers d)
  | WOffer k o => mkDb (brands d) (locations d) (<[k := o]> (offers d))
  end.

Definition tx_target (u : Update) : bool * string :=
  (match TableName_ u with LOCATIONS => true | OFFERS => false end, Key u).

(** [TransactWriteItems]: all conditions are checked against the store
    as it is before the call; if every item succeeds all writes are
    applied, otherwise none is and the call throws
    [TransactionCanceledException].  Two items on one key are refused. *)
Definition dynamo_transactWrite (d : Db) (us : list Update) : Thrown + Db :=
  if bool_decide (NoDup (map tx_target us)) then
    match prepare_all d us with
    | Some ws => inr (foldl commit d ws)
    | None => inl TransactionCanceledException
    end
  else inl (ErrorObj "ValidationException" "Transaction request cannot include multiple operations on one item").

(** ** Effects: store state, thrown errors and the log of store calls *)

(** Store calls, by table name ([Tables.*]). *)
Inductive StoreCall :=
| GetItem (table key : string)
| QueryIndex (table index k1 k2 : string)
| PutItem (table key : string)
| DeleteItem (table key : string)
| TransactWriteItems (items : list Update).

Record World := mkWorld { db : Db; calls : list StoreCall }.

(** An async service method: it resolves with a value or rejects with
    a thrown value, and leaves the world it reached. *)
Definition M (A : Type) : Type := World -> (Thrown + A) * World.

#[global] Instance M_ret : MRet M := λ A a w, (inr a, w).
#[global] Instance M_bind : MBind M := λ A B k m w,
  match m w with
  | (inr a, w') => k a w'
  | (inl e, w') => (inl e, w')
  end.

Definition throw {A} (e : Thrown) : M A := λ w, (inl e, w).

Definition try_catch {A} (m : M A) (h : Thrown -> M A) : M A := λ w,
  match m w with
  | (inl e, w') => h e w'
  | r => r
  end.

Definition log (c : StoreCall) (w : World) : World :=
  mkWorld (db w) (calls w ++ [c]).

Definition set_db (d : Db) (w : World) : World := mkWorld d (calls w).

Definition is_write (c : StoreCall) : bool :=
  match c with
  | PutItem _ _ | DeleteItem _ _ | TransactWriteItems _ => true
  | _ => false
  end.

(** ** Repositories *)

Definition brandsRepository_findById (id : string) : M (option Brand) := λ w,
  (inr (brands (db w) !! id), log (GetItem "brands" id) w).

Definition offersRepository_findById (id : string) : M (option Offer) := λ w,
  (inr (offers (db w) !! id), log (GetItem "offers" id) w).

Definition locationsRepository_findById (id : string) : M (option Location) := λ w,
  (inr (locations (db w) !! id), log (GetItem "locations" id) w).

(** [findByBrandIdAndName]: query of [brandId-name-index], first item. *)
Definition offersRepository_findByBrandIdAndName (brandId name : string)
  : M (option Offer) := λ w,
  (inr (head (List.filter
                (λ o, String.eqb (o_brandId o) brandId && String.eqb (o_name o) name)
                (map snd (map_to_list (offers (db w)))))),
   log (QueryIndex "offers" "brandId-name-index" brandId name) w).

(** Modelled from the spec: [LocationsRepository.findByBrandIdAndNameLower],
    whose body is not in the repository (its test and callers are): the
    query [brandId = :brandId AND nameLower = :nameLower] of
    [brandId-nameLower-index], returning the first item or null, which
    backs the [(brandId, nameLower)] uniqueness of locations. *)
Definition locationsRepository_findByBrandIdAndNameLower (brandId nl : string)
  : M (option Location) := λ w,
  (inr (head (List.filter
                (λ l, String.eqb (l_brandId l) brandId && String.eqb (nameLower l) nl)
                (map snd (map_to_list (locations (db w)))))),
   log (QueryIndex "locations" "brandId-nameLower-index" brandId nl) w).

(** DynamoDB refuses a [PutItem] whose item holds the empty string in a
    key attribute of the table or of one of its global secondary indexes
    (schema in the table-creation script): the call throws a
    [ValidationException] and writes nothing. *)
Definition empty_key_error : Thrown :=
  ErrorObj "ValidationException"
    "One or more parameter values are not valid. The AttributeValue for a key attribute cannot contain an empty string value.".

Definition has_empty_key (keys : list string) : bool :=
  existsb (λ k, String.eqb k EmptyString) keys.

(** Key attributes: [offers] [id], [brandId-index] and
    [brandId-name-index]; [locations] [id], [brandId-name-index] and
    [brandId-nameLower-index]; [brands] [id] and [nameLower-index]. *)
Definition offer_keys (o : Offer) : list string := [o_id o; o_brandId o; o_name o].
Definition location_keys (l : Location) : list string :=
  [l_id l; l_brandId l; l_name l; nameLower l].
Definition brand_keys (b : Brand) : list string := [b_id b; b_nameLower b].

(** [create] and [update] are both a [put] of the whole item. *)
Definition offersRepository_put (o : Offer) : M Offer := λ w,
  let d := db w in
  if has_empty_key (offer_keys o) then (inl empty_key_error, log (PutItem "offers" (o_id o)) w)
  else
  (inr o, log (PutItem "offers" (o_id o))
            (set_db (mkDb (brands d) (locations d) (<[o_id o := o]> (offers d))) w)).

Definition locationsRepository_put (l : Location) : M Location := λ w,
  let d := db w in
  if has_empty_key (location_keys l)
  then (inl empty_key_error, log (PutItem "locations" (l_id l)) w)
  else
  (inr l, log (PutItem "locations" (l_id l))
            (set_db (mkDb (brands d) (<[l_id l := l]> (locations d)) (offers d)) w)).

Definition offersRepository_delete (id : string) : M unit := λ w,
  let d := db w in
  (inr tt, log (DeleteItem "offers" id)
             (set_db (mkDb (brands d) (locations d) (delete id (offers d))) w)).

Definition locationsRepository_delete (id : string) : M unit := λ w,
  let d := db w in
  (inr tt, log (DeleteItem "locations" id)
             (set_db (mkDb (brands d) (delete id (locations d)) (offers d)) w)).

(** ** DTOs *)

Record CreateLocationDto := mkCreateLocationDto {
  cl_brandId : string; cl_name : string; cl_address : string }.

(** Validated bodies admit only these optional fields
    ([whitelist], [forbidNonWhitelisted]). *)
Record UpdateLocationDto := mkUpdateLocationDto {
  ul_name : option string; ul_address : option string }.

Record UpdateOfferDto := mkUpdateOfferDto {
  uo_name : option string; uo_description : option string }.

(** JavaScript truthiness of an optional string. *)
Definition truthy (s : option string) : option string :=
  match s with
  | Some v => if String.eqb v EmptyString then None else Some v
  | None => None
  end.

(** [String.prototype.toLowerCase] is a built-in of the JavaScript
    runtime, not code of this repository: the services that call it take
    it as the parameter [toLowerCase] below, and every theorem about them
    holds for any lowering function, so for the runtime's full Unicode
    one.  To evaluate examples, [latin1_toLowerCase] is that function on
    UTF-8 text restricted to the ASCII and Latin-1 capitals: A-Z, and
    U+00C0 to U+00DE except U+00D7, each mapped 0x20 up. *)
Fixpoint latin1_toLowerCase (s : string) : string :=
  match s with
  | EmptyString => EmptyString
  | String c rest =>
      let n := nat_of_ascii c in
      if (65 <=? n)%nat && (n <=? 90)%nat then
        String (ascii_of_nat (n + 32)) (latin1_toLowerCase rest)
      else if (n =? 195)%nat then
        match rest with
        | EmptyString => String c EmptyString
        | String c2 rest2 =>
            let m := nat_of_ascii c2 in
            if (128 <=? m)%nat && (m <=? 158)%nat && negb (m =? 151)%nat
            then String c (String (ascii_of_nat (m + 32)) (latin1_toLowerCase rest2))
            else String c (String c2 (latin1_toLowerCase rest2))
        end
      else String c (latin1_toLowerCase rest)
  end.

(** [error instanceof Error && error.name === "TransactionCanceledException"];
    Nest's exceptions are [Error]s named after their class. *)
Definition is_transaction_canceled (error : Thrown) : bool :=
  match error with
  | ErrorObj name _ => String.eqb name "TransactionCanceledException"
  | _ => false
  end.

(** The two [TransactItems] of [linkToLocation]. *)
Definition link_items (offerId locationId now : string) : list Update :=
  [ mkUpdate LOCATIONS locationId
      [ADD "offerIds" {[offerId]};
       SET "hasOffer" (Val (AV_BOOL true));
       SET "updatedAt" (Val (AV_S now))]
      (OrC (attribute_not_exists "offerIds") (NotC (contains "offerIds" offerId)));
    mkUpdate OFFERS offerId
      [ADD "locationIds" {[locationId]};
       SET "locationsTotal" (PlusN "locationsTotal" 1);
       SET "updatedAt" (Val (AV_S now))]
      (OrC (attribute_not_exists "locationIds")
           (NotC (contains "locationIds" locationId))) ].

(** The two [TransactItems] of [unlinkFromLocation]. *)
Definition unlink_items (offerId locationId : string) (hasOffer : bool)
    (now : string) : list Update :=
  [ mkUpdate LOCATIONS locationId
      [DELETE "offerIds" {[offerId]};
       SET "hasOffer" (Val (AV_BOOL hasOffer));
       SET "updatedAt" (Val (AV_S now))]
      (contains "offerIds" offerId);
    mkUpdate OFFERS offerId
      [DELETE "locationIds" {[locationId]};
       SET "locationsTotal" (MinusN "locationsTotal" 1);
       SET "updatedAt" (Val (AV_S now))]
      (AndC (GtN "locationsTotal" 0) (contains "locationIds" locationId)) ].

(** ** Services

    The behaviour of [DynamoDBService.transactWrite] is a parameter:
    [dynamo_transactWrite] above, or any other outcome the store may
    produce (unavailability, timeouts). *)
Section Services.
Variable transactWrite_impl : Db -> list Update -> Thrown + Db.

Definition transactWrite (items : list Update) : M unit := λ w,
  let w1 := log (TransactWriteItems items) w in
  match transactWrite_impl (db w) items with
  | inl e => (inl e, w1)
  | inr d => (inr tt, set_db d w1)
  end.

Definition brandsService_findOne (id : string) : M Brand :=
  brand ← brandsRepository_findById id;
  match brand with
  | Some b => mret b
  | None => throw (NotFoundException ("Brand with id " +:+ id +:+ " not found"))
  end.

Definition locationsService_findOne (id : string) : M Location :=
  location ← locationsRepository_findById id;
  match location with
  | Some l => mret l
  | None => throw (NotFoundException ("Location with id " +:+ id +:+ " not found"))
  end.

Definition offersService_findOne (id : string) : M Offer :=
  offer ← offersRepository_findById id;
  match offer with
  | Some o => mret o
  | None => throw (NotFoundException ("Offer with id " +:+ id +:+ " not found"))
  end.

(** [OffersService.linkToLocation]. *)
Definition linkToLocation (offerId locationId now : string) : M Offer :=
  offer ← offersService_findOne offerId;
  location ← locationsService_findOne locationId;
  if negb (String.eqb (l_brandId location) (o_brandId offer)) then
    throw (ConflictException "Cannot link offer to a location from a different brand")
  else if hasItem (offerIds location) offerId then
    throw (ConflictException
             ("Offer " +:+ offerId +:+ " is already linked to this location"))
  else
    try_catch (transactWrite (link_items offerId locationId now))
      (λ error,
        if is_transaction_canceled error
        then throw (ConflictException ("Offer " +:+ offerId
                      +:+ " is already linked to location " +:+ locationId))
        else throw error) ;;
    mret (mkOffer (o_id offer) (o_name offer) (o_brandId offer) (description offer)
            (Some (list_to_set (elements (default ∅ (locationIds offer)) ++ [locationId])))
            (locationsTotal offer + 1) (o_createdAt offer) now).

(** [OffersService.unlinkFromLocation]. *)
Definition unlinkFromLocation (offerId locationId now : string) : M Offer :=
  offer ← offersService_findOne offerId;
  location ← locationsService_findOne locationId;
  if negb (String.eqb (l_brandId location) (o_brandId offer)) then
    throw (ConflictException "Cannot unlink offer from a location from a different brand")
  else if negb (hasItem (offerIds location) offerId) then
    throw (NotFoundException
             ("Offer " +:+ offerId +:+ " is not linked to this location"))
  else
    let offerIdsArray :=
      match offerIds location with
      | SetColl s => elements s
      | ArrColl l => l
      | Undefined => []
      end in
    let hasOffer :=
      Nat.ltb 0 (length (List.filter (λ id, negb (String.eqb id offerId)) offerIdsArray)) in
    try_catch (transactWrite (unlink_items offerId locationId hasOffer now))
      (λ error,
        if is_transaction_canceled error
        then throw (NotFoundException ("Offer " +:+ offerId
                      +:+ " is not linked to location " +:+ locationId))
        else throw error) ;;
    let newLocationIds := default ∅ (locationIds offer) ∖ {[locationId]} in
    mret (mkOffer (o_id offer) (o_name offer) (o_brandId offer) (description offer)
            (if Nat.ltb 0 (size newLocationIds) then Some newLocationIds else None)
            (Z.max 0 (locationsTotal offer - 1)) (o_createdAt offer) now).

End Services.

(** [OffersService.update]: [{...offer, ...updateOfferDto, updatedAt}]. *)
Definition offersService_update (id : string) (dto : UpdateOfferDto) (now : string)
  : M Offer :=
  offer ← offersService_findOne id;
  match truthy (uo_name dto) with
  | Some n =>
      if String.eqb n (o_name offer) then mret tt
      else existing ← offersRepository_findByBrandIdAndName (o_brandId offer) n;
           match existing with
           | Some _ => throw (ConflictException ("Offer with name " +:+ n
                                +:+ " already exists for this brand"))
           | None => mret tt
           end
  | None => mret tt
  end ;;
  offersRepository_put
    (mkOffer (o_id offer) (default (o_name offer) (uo_name dto)) (o_brandId offer)
       (default (description offer) (uo_description dto))
       (locationIds offer) (locationsTotal offer) (o_createdAt offer) now).

(** [OffersService.remove]. *)
Definition offersService_remove (id : string) : M unit :=
  _ ← offersService_findOne id;
  offersRepository_delete id.

Section Lowering.
Variable toLowerCase : string -> string.

(** [LocationsService.create]: uniqueness of [(brandId, nameLower)]. *)
Definition locationsService_create (dto : CreateLocationDto) (newId now : string)
  : M Location :=
  _ ← brandsService_findOne (cl_brandId dto);
  let nl := toLowerCase (cl_name dto) in
  existing ← locationsRepository_findByBrandIdAndNameLower (cl_brandId dto) nl;
  match existing with
  | Some _ => throw (ConflictException ("Location with name " +:+ cl_name dto
                       +:+ " already exists for this brand"))
  | None =>
      locationsRepository_put
        (mkLocation newId (cl_brandId dto) (cl_name dto) nl (cl_address dto)
           Undefined false now now)
  end.

(** [LocationsService.update]:
    [{...location, ...updateLocationDto, ...(nameLower && {nameLower}), updatedAt}]. *)
Definition locationsService_update (id : string) (dto : UpdateLocationDto)
    (now : string) : M Location :=
  location ← locationsService_findOne id;
  let nl := toLowerCase <$> truthy (ul_name dto) in
  match nl with
  | Some n =>
      if String.eqb n (nameLower location) then mret tt
      else existing ← locationsRepository_findByBrandIdAndNameLower (l_brandId location) n;
           match existing with
           | Some _ => throw (ConflictException ("Location with name "
                                +:+ default n (ul_name dto) +:+ " already exists for this brand"))
           | None => mret tt
           end
  | None => mret tt
  end ;;
  locationsRepository_put
    (mkLocation (l_id location) (l_brandId location) (default (l_name location) (ul_name dto))
       (default (nameLower location) nl) (default (address location) (ul_address dto))
       (offerIds location) (hasOffer location) (l_createdAt location) now).

(** [LocationsService.remove]. *)
Definition locationsService_remove (id : string) : M unit :=
  _ ← locationsService_findOne id;
  locationsRepository_delete id.

(** The services over the DynamoDB model of [transactWrite]. *)
Definition link := linkToLocation dynamo_transactWrite.
Definition unlink := unlinkFromLocation dynamo_transactWrite.

(** ** [BrandsRepository] (newest revision) and [BrandsService] *)

(** [findByNameLower]: query of [nameLower-index], first item. *)
Definition brandsRepository_findByNameLower (nl : string) : M (option Brand) := λ w,
  (inr (head (List.filter (λ b, String.eqb (b_nameLower b) nl)
                (map snd (map_to_list (brands (db w)))))),
   log (QueryIndex "brands" "nameLower-index" nl EmptyString) w).

(** [create] and [update] are both a [put] of the whole item. *)
Definition brandsRepository_put (b : Brand) : M Brand := λ w,
  let d := db w in
  if has_empty_key (brand_keys b) then (inl empty_key_error, log (PutItem "brands" (b_id b)) w)
  else
  (inr b, log (PutItem "brands" (b_id b))
            (set_db (mkDb (<[b_id b := b]> (brands d)) (locations d) (offers d)) w)).

Definition brandsRepository_delete (id : string) : M unit := λ w,
  let d := db w in
  (inr tt, log (DeleteItem "brands" id)
             (set_db (mkDb (delete id (brands d)) (locations d) (offers d)) w)).

(** The brand DTOs are not in the repository; the service reads [name]
    and spreads the body into a [Brand], whose other writable field is
    [description]. *)
Record CreateBrandDto := mkCreateBrandDto { cb_name : string; cb_description : string }.
Record UpdateBrandDto := mkUpdateBrandDto {
  ub_name : option string; ub_description : option string }.

(** [BrandsService.create]: uniqueness of [nameLower]. *)
Definition brandsService_create (dto : CreateBrandDto) (newId now : string) : M Brand :=
  let nl := toLowerCase (cb_name dto) in
  existing ← brandsRepository_findByNameLower nl;
  match existing with
  | Some _ => throw (ConflictException ("Brand with name " +:+ cb_name dto
                       +:+ " already exists"))
  | None => brandsRepository_put (mkBrand newId (cb_name dto) nl (cb_description dto) now now)
  end.

(** [BrandsService.update]:
    [{...brand, ...updateBrandDto, ...(nameLower && {nameLower}), updatedAt}]. *)
Definition brandsService_update (id : string) (dto : UpdateBrandDto) (now : string)
  : M Brand :=
  brand ← brandsService_findOne id;
  let nl := toLowerCase <$> truthy (ub_name dto) in
  match nl with
  | Some n =>
      if String.eqb n (b_nameLower brand) then mret tt
      else existing ← brandsRepository_findByNameLower n;
           match existing with
           | Some _ => throw (ConflictException ("Brand with name "
                                +:+ default n (ub_name dto) +:+ " already exists"))
           | None => mret tt
           end
  | None => mret tt
  end ;;
  brandsRepository_put
    (mkBrand (b_id brand) (default (b_name brand) (ub_name dto))
       (default (b_nameLower brand) nl) (default (b_description brand) (ub_description dto))
       (b_createdAt brand) now).

End Lowering.

(** [BrandsService.remove]. *)
Definition brandsService_remove (id : string) : M unit :=
  _ ← brandsService_findOne id;
  brandsRepository_delete id.

(** ** [OffersService.create] *)

Record CreateOfferDto := mkCreateOfferDto {
  co_brandId : string; co_name : string; co_description : string }.

(** [{id, ...createOfferDto, locationsTotal: 0, createdAt, updatedAt}],
    written by [OffersRepository.create], a [put]. *)
Definition offersService_create (dto : CreateOfferDto) (newId now : string) : M Offer :=
  _ ← brandsService_findOne (co_brandId dto);
  existing ← offersRepository_findByBrandIdAndName (co_brandId dto) (co_name dto);
  match existing with
  | Some _ => throw (ConflictException ("Offer with name " +:+ co_name dto
                       +:+ " already exists for this brand"))
  | None =>
      offersRepository_put
        (mkOffer newId (co_name dto) (co_brandId dto) (co_description dto) None 0 now now)
  end.

(** ** The effect of one transaction, by the records it reads *)

(** The location after the link's update: [offerId] added, [hasOffer]
    true, [updatedAt] refreshed. *)
Definition link_loc (L : Location) (offerId now : string) : Location :=
  mkLocation (l_id L) (l_brandId L) (l_name L) (nameLower L) (address L)
    (SetColl (match offerIds L with SetColl s => s ∪ {[offerId]} | _ => {[offerId]} end))
    true (l_createdAt L) now.

(** The offer after the link's update: [locationId] added, counter + 1. *)
Definition link_offer (O : Offer) (locationId now : string) : Offer :=
  mkOffer (o_id O) (o_name O) (o_brandId O) (description O)
    (Some (match locationIds O with Some s => s ∪ {[locationId]} | None => {[locationId]} end))
    (locationsTotal O + 1) (o_createdAt O) now.

(** A string set after removing one element; an emptied set attribute
    disappears. *)
Definition set_remove (s : gset string) (x : string) : option (gset string) :=
  if bool_decide (s ∖ {[x]} = ∅) then None else Some (s ∖ {[x]}).

Definition unlink_loc (L : Location) (offerId : string) (h : bool) (now : string)
  : Location :=
  mkLocation (l_id L) (l_brandId L) (l_name L) (nameLower L) (address L)
    (match offerIds L with
     | SetColl s => match set_remove s offerId with Some r => SetColl r | None => Undefined end
     | c => c
     end)
    h (l_createdAt L) now.

Definition unlink_offer (O : Offer) (locationId now : string) : Offer :=
  mkOffer (o_id O) (o_name O) (o_brandId O) (description O)
    (locationIds O ≫= λ s, set_remove s locationId)
    (locationsTotal O - 1) (o_createdAt O) now.

Definition link_write_ok (L : Location) (O : Offer) (offerId locationId : string) : bool :=
  match offerIds L with
  | Undefined => true
  | SetColl s => negb (bool_decide (offerId ∈ s))
  | ArrColl _ => false
  end &&
  negb (bool_decide (locationId ∈ default ∅ (locationIds O))).

Definition unlink_write_ok (L : Location) (O : Offer) (offerId locationId : string) : bool :=
  match offerIds L with
  | SetColl s => bool_decide (offerId ∈ s)
  | _ => false
  end &&
  bool_decide (0 < locationsTotal O) &&
  bool_decide (locationId ∈ default ∅ (locationIds O)).

Definition link_result (O : Offer) (locationId now : string) : Offer :=
  mkOffer (o_id O) (o_name O) (o_brandId O) (description O)
    (Some (list_to_set (elements (default ∅ (locationIds O)) ++ [locationId])))
    (locationsTotal O + 1) (o_createdAt O) now.

Definition unlink_result (O : Offer) (locationId now : string) : Offer :=
  let newLocationIds := default ∅ (locationIds O) ∖ {[locationId]} in
  mkOffer (o_id O) (o_name O) (o_brandId O) (description O)
    (if Nat.ltb 0 (size newLocationIds) then Some newLocationIds else None)
    (Z.max 0 (locationsTotal O - 1)) (o_createdAt O) now.

Definition unlink_hasOffer (L : Location) (offerId : string) : bool :=
  let offerIdsArray :=
    match offerIds L with SetColl s => elements s | ArrColl l => l | Undefined => [] end in
  Nat.ltb 0 (length (List.filter (λ id, negb (String.eqb id offerId)) offerIdsArray)).

(** ** Invariants of the link data (spec section 3) *)

Definition offer_inv (O : Offer) : Prop :=
  locationsTotal O = Z.of_nat (size (default ∅ (locationIds O))).

Definition coll_nonempty (c : Coll) : bool :=
  match c with
  | Undefined => false
  | SetColl s => bool_decide (s ≠ ∅)
  | ArrColl l => negb (Nat.eqb (length l) 0)
  end.

Definition loc_inv (L : Location) : Prop :=
  hasOffer L = coll_nonempty (offerIds L).

Definition db_inv (d : Db) : Prop :=
  map_Forall (λ _ O, offer_inv O) (offers d) /\
  map_Forall (λ _ L, loc_inv L) (locations d).

(** A sequence of link and unlink requests, run one after the other. *)
Inductive LinkOp :=
| OpLink (offerId locationId now : string)
| OpUnlink (offerId locationId now : string).

Definition run_op_with (tw : Db -> list Update -> Thrown + Db) (op : LinkOp) : M Offer :=
  match op with
  | OpLink o l n => linkToLocation tw o l n
  | OpUnlink o l n => unlinkFromLocation tw o l n
  end.

Definition run_op (op : LinkOp) : M Offer := run_op_with dynamo_transactWrite op.

(** Each call's outcome with the store it leaves. *)
Fixpoint run_ops (ops : list LinkOp) (w : World)
  : list ((Thrown + Offer) * Db) * World :=
  match ops with
  | [] => ([], w)
  | op :: rest =>
      let '(r, w1) := run_op op w in
      let '(rs, w2) := run_ops rest w1 in
      ((r, db w1) :: rs, w2)
  end.

(** ** Error taxonomy (spec section 7) *)

Inductive ErrKind := KNotFound | KConflict.

Definition kind_of (e : Thrown) : option ErrKind :=
  match e with
  | NotFoundException _ => Some KNotFound
  | ConflictException _ => Some KConflict
  | _ => None
  end.

(** The read-time preconditions of link and unlink (spec 4.1 and 4.2,
    items 1-4) and the error a failing one is reported with. *)
Definition op_read_check (d : Db) (op : LinkOp) : option ErrKind :=
  let '(offerId, locationId, is_link) :=
    match op with
    | OpLink o l _ => (o, l, true)
    | OpUnlink o l _ => (o, l, false)
    end in
  match offers d !! offerId, locations d !! locationId with
  | None, _ => Some KNotFound
  | _, None => Some KNotFound
  | Some offer, Some location =>
      if negb (String.eqb (l_brandId location) (o_brandId offer)) then Some KConflict
      else if is_link then
        (if hasItem (offerIds location) offerId then Some KConflict else None)
      else
        (if hasItem (offerIds location) offerId then None else Some KNotFound)
  end.

(** The error a rejected write-time condition is reported with. *)
Definition write_failure_kind (op : LinkOp) : ErrKind :=
  match op with OpLink _ _ _ => KConflict | OpUnlink _ _ _ => KNotFound end.

(** A sample store: brand [acme] with location [Main St] and offer
    [10% Off], not linked. *)
Definition acme : Brand :=
  mkBrand "acme" "Acme" "acme" "Coffee" "2024-01-01" "2024-01-01".
Definition offer1 : Offer :=
  mkOffer "o1" "10% Off" "acme" "Ten percent" None 0 "2024-01-01" "2024-01-01".
Definition loc1 : Location :=
  mkLocation "l1" "acme" "Main St" "main st" "1 Main St" Undefined false
    "2024-01-01" "2024-01-01".
Definition sample_world : World :=
  mkWorld (mkDb {[ "acme" := acme ]} {[ "l1" := loc1 ]} {[ "o1" := offer1 ]}) [].

(** A second sample store: [acme] with two locations and two offers. *)
Definition loc2 : Location :=
  mkLocation "l2" "acme" "High St" "high st" "3 High St" Undefined false
    "2024-01-01" "2024-01-01".
Definition offer2 : Offer :=
  mkOffer "o2" "Half Price" "acme" "Fifty percent" None 0 "2024-01-01" "2024-01-01".
Definition sample_world2 : World :=
  mkWorld (mkDb {[ "acme" := acme ]} (<[ "l2" := loc2 ]> {[ "l1" := loc1 ]})
             (<[ "o2" := offer2 ]> {[ "o1" := offer1 ]})) [].

(** A third sample store: [acme] with a location named in non-ASCII
    letters, and a request for the same name in capitals. *)
Definition loc_ecole : Location :=
  mkLocation "l3" "acme" "École" "école" "5 Rue de l'École" Undefined false
    "2024-01-01" "2024-01-01".
Definition sample_world3 : World :=
  mkWorld (mkDb {[ "acme" := acme ]} {[ "l3" := loc_ecole ]} ∅) [].
Definition ecole_upper : CreateLocationDto :=
  mkCreateLocationDto "acme" "ÉCOLE" "7 Rue de l'École".
Definition cafe : Brand :=
  mkBrand "cafe" "Café" "café" "Coffee shop" "2024-01-01" "2024-01-01".
Definition sample_world4 : World :=
  mkWorld (mkDb {[ "cafe" := cafe ]} ∅ ∅) [].

(** ** Referential integrity of [offerIds] (spec section 3) *)

(** Every id in a location's [offerIds] names a stored offer whose
    [locationIds] holds that location's key: the two are linked. *)
Definition loc_refs_linked (d : Db) : Prop :=
  forall (locationId : string) (location : Location) (offerId : string),
    locations d !! locationId = Some location ->
    hasItem (offerIds location) offerId = true ->
    exists offer : Offer,
      offers d !! offerId = Some offer /\ locationId ∈ default ∅ (locationIds offer).

(** The four link fields, by key (spec section 5). *)
Definition offer_links (d : Db) : gmap string (option (gset string) * Z) :=
  (λ o, (locationIds o, locationsTotal o)) <$> offers d.

Definition loc_links (d : Db) : gmap string (Coll * bool) :=
  (λ l, (offerIds l, hasOffer l)) <$> locations d.

(** ** Keys and uniqueness of the stored records *)

(** Every record is stored under its own id, as the repositories' [put]
    keys it. *)
Definition keys_are_ids (d : Db) : Prop :=
  (forall k b, brands d !! k = Some b -> b_id b = k) /\
  (forall k l, locations d !! k = Some l -> l_id l = k) /\
  (forall k o, offers d !! k = Some o -> o_id o = k).

(** No two stored offers share [(brandId, name)]. *)
Definition offer_names_unique (d : Db) : Prop :=
  forall k1 k2 o1 o2, offers d !! k1 = Some o1 -> offers d !! k2 = Some o2 ->
    o_brandId o1 = o_brandId o2 -> o_name o1 = o_name o2 -> k1 = k2.

(** No two stored locations share [(brandId, nameLower)]. *)
Definition loc_names_unique (d : Db) : Prop :=
  forall k1 k2 l1 l2, locations d !! k1 = Some l1 -> locations d !! k2 = Some l2 ->
    l_brandId l1 = l_brandId l2 -> nameLower l1 = nameLower l2 -> k1 = k2.

(** No two stored brands share [nameLower]. *)
Definition brand_names_unique (d : Db) : Prop :=
  forall k1 k2 b1 b2, brands d !! k1 = Some b1 -> brands d !! k2 = Some b2 ->
    b_nameLower b1 = b_nameLower b2 -> k1 = k2.

(** Every stored location's [nameLower] is its lower-cased name. *)
Definition name_lower_consistent (toLowerCase : string -> string) (d : Db) : Prop :=
  forall k l, locations d !! k = Some l -> nameLower l = toLowerCase (l_name l).

(** ** The operations of the system *)

(** Every service method that writes, as the controllers expose them;
    [findAll] and [findOne] only read and leave the store as it is. *)
Inductive SysOp :=
| OpOfferCreate (dto : CreateOfferDto) (newId now : string)
| OpOfferUpdate (id : string) (dto : UpdateOfferDto) (now : string)
| OpOfferRemove (id : string)
| OpLinkTo (offerId locationId now : string)
| OpUnlinkFrom (offerId locationId now : string)
| OpLocationCreate (dto : CreateLocationDto) (newId now : string)
| OpLocationUpdate (id : string) (dto : UpdateLocationDto) (now : string)
| OpLocationRemove (id : string)
| OpBrandCreate (dto : CreateBrandDto) (newId now : string)
| OpBrandUpdate (id : string) (dto : UpdateBrandDto) (now : string)
| OpBrandRemove (id : string).

(** The world after one operation, whether it succeeds or throws. *)
Definition run_sys (toLowerCase : string -> string) (op : SysOp) (w : World) : World :=
  match op with
  | OpOfferCreate dto newId now => snd (offersService_create dto newId now w)
  | OpOfferUpdate id dto now => snd (offersService_update id dto now w)
  | OpOfferRemove id => snd (offersService_remove id w)
  | OpLinkTo offerId locationId now => snd (link offerId locationId now w)
  | OpUnlinkFrom offerId locationId now => snd (unlink offerId locationId now w)
  | OpLocationCreate dto newId now =>
      snd (locationsService_create toLowerCase dto newId now w)
  | OpLocationUpdate id dto now => snd (locationsService_update toLowerCase id dto now w)
  | OpLocationRemove id => snd (locationsService_remove id w)
  | OpBrandCreate dto newId now => snd (brandsService_create toLowerCase dto newId now w)
  | OpBrandUpdate id dto now => snd (brandsService_update toLowerCase id dto now w)
  | OpBrandRemove id => snd (brandsService_remove id w)
  end.

(** The id a [create] draws from [randomUUID()] is not yet a key of its
    table. *)
Definition new_id_fresh (d : Db) (op : SysOp) : Prop :=
  match op with
  | OpOfferCreate _ newId _ => offers d !! newId = None
  | OpLocationCreate _ newId _ => locations d !! newId = None
  | OpBrandCreate _ newId _ => brands d !! newId = None
  | _ => True
  end.

(** Case split on a lookup in a map of one or two sample entries. *)
Ltac sample_lookup H :=
  repeat (rewrite lookup_insert_Some in H;
          destruct H as [[<- <-]|[_ H]]);
  try (apply lookup_singleton_Some in H as [<- <-]).

Arguments unlink_hasOffer : simpl never.
Arguments has_empty_key : simpl never.

(** * Proofs *)

Lemma link_tx (d : Db) (offerId locationId now : string) (L : Location) (O : Offer) :
  locations d !! locationId = Some L ->
  offers d !! offerId = Some O ->
  dynamo_transactWrite d (link_items offerId locationId now) =
  if link_write_ok L O offerId locationId
  then inr (mkDb (brands d) (<[locationId := link_loc L offerId now]> (locations d))
              (<[offerId := link_offer O locationId now]> (offers d)))
  else inl TransactionCanceledException.
Proof.
  intros HL HO. unfold dynamo_transactWrite.
  rewrite bool_decide_eq_true_2
    by (cbn; apply NoDup_cons; split; [set_solver | apply NoDup_singleton]).
  cbn [prepare_all prepare link_items TableName_ Key]. rewrite HL, HO.
  unfold run_update, link_write_ok, link_loc, link_offer. cbn.
  destruct (offerIds L) as [|s|xs]; destruct (locationIds O) as [t|]; cbn.
  all: repeat case_bool_decide; cbn; try reflexivity.
  all: try (exfalso; set_solver).
  all: destruct (existsb (String.eqb offerId) xs); reflexivity.
Qed.

Lemma unlink_tx (d : Db) (offerId locationId : string) (h : bool) (now : string)
    (L : Location) (O : Offer) :
  locations d !! locationId = Some L ->
  offers d !! offerId = Some O ->
  dynamo_transactWrite d (unlink_items offerId locationId h now) =
  if unlink_write_ok L O offerId locationId
  then inr (mkDb (brands d) (<[locationId := unlink_loc L offerId h now]> (locations d))
              (<[offerId := unlink_offer O locationId now]> (offers d)))
  else inl TransactionCanceledException.
Proof.
  intros HL HO. unfold dynamo_transactWrite.
  rewrite bool_decide_eq_true_2
    by (cbn; apply NoDup_cons; split; [set_solver | apply NoDup_singleton]).
  cbn [prepare_all prepare unlink_items TableName_ Key]. rewrite HL, HO.
  unfold run_update, unlink_write_ok, unlink_loc, unlink_offer, set_remove. cbn.
  destruct (offerIds L) as [|s|xs]; destruct (locationIds O) as [t|]; cbn.
  all: destruct (Z.ltb_spec 0 (locationsTotal O)).
  all: repeat case_bool_decide; cbn; try reflexivity.
  all: try (exfalso; set_solver || lia).
  all: destruct (existsb (String.eqb offerId) xs); reflexivity.
Qed.

(** ** The two link methods, step by step *)

Section Unfold.
Variable tw : Db -> list Update -> Thrown + Db.

Lemma linkToLocation_steps (offerId locationId now : string) (w : World) :
  linkToLocation tw offerId locationId now w =
  let w1 := log (GetItem "offers" offerId) w in
  match offers (db w) !! offerId with
  | None => (inl (NotFoundException ("Offer with id " +:+ offerId +:+ " not found")), w1)
  | Some offer =>
    let w2 := log (GetItem "locations" locationId) w1 in
    match locations (db w) !! locationId with
    | None => (inl (NotFoundException ("Location with id " +:+ locationId +:+ " not found")), w2)
    | Some location =>
      if negb (String.eqb (l_brandId location) (o_brandId offer)) then
        (inl (ConflictException "Cannot link offer to a location from a different brand"), w2)
      else if hasItem (offerIds location) offerId then
        (inl (ConflictException ("Offer " +:+ offerId +:+ " is already linked to this location")), w2)
      else
        let w3 := log (TransactWriteItems (link_items offerId locationId now)) w2 in
        match tw (db w) (link_items offerId locationId now) with
        | inl e =>
          (inl (if is_transaction_canceled e
                then ConflictException ("Offer " +:+ offerId
                       +:+ " is already linked to location " +:+ locationId)
                else e), w3)
        | inr d => (inr (link_result offer locationId now), set_db d w3)
        end
    end
  end.
Proof.
  unfold linkToLocation, offersService_findOne, locationsService_findOne,
    offersRepository_findById, locationsRepository_findById, transactWrite,
    try_catch, throw, mbind, M_bind, mret, M_ret, link_result, log.
  cbn. destruct (offers (db w) !! offerId); cbn; [|reflexivity].
  destruct (locations (db w) !! locationId); cbn; [|reflexivity].
  destruct (negb _); [reflexivity|]. destruct (hasItem _ _); [reflexivity|].
  destruct (tw _ _) as [e|d]; [|reflexivity].
  destruct (is_transaction_canceled e); reflexivity.
Qed.

Lemma unlinkFromLocation_steps (offerId locationId now : string) (w : World) :
  unlinkFromLocation tw offerId locationId now w =
  let w1 := log (GetItem "offers" offerId) w in
  match offers (db w) !! offerId with
  | None => (inl (NotFoundException ("Offer with id " +:+ offerId +:+ " not found")), w1)
  | Some offer =>
    let w2 := log (GetItem "locations" locationId) w1 in
    match locations (db w) !! locationId with
    | None => (inl (NotFoundException ("Location with id " +:+ locationId +:+ " not found")), w2)
    | Some location =>
      if negb (String.eqb (l_brandId location) (o_brandId offer)) then
        (inl (ConflictException "Cannot unlink offer from a location from a different brand"), w2)
      else if negb (hasItem (offerIds location) offerId) then
        (inl (NotFoundException ("Offer " +:+ offerId +:+ " is not linked to this location")), w2)
      else
        let items := unlink_items offerId locationId (unlink_hasOffer location offerId) now in
        let w3 := log (TransactWriteItems items) w2 in
        match tw (db w) items with
        | inl e =>
          (inl (if is_transaction_canceled e
                then NotFoundException ("Offer " +:+ offerId
                       +:+ " is not linked to location " +:+ locationId)
                else e), w3)
        | inr d => (inr (unlink_result offer locationId now), set_db d w3)
        end
    end
  end.
Proof.
  unfold unlinkFromLocation, offersService_findOne, locationsService_findOne,
    offersRepository_findById, locationsRepository_findById, transactWrite,
    try_catch, throw, mbind, M_bind, mret, M_ret, unlink_result, unlink_hasOffer, log.
  cbn. destruct (offers (db w) !! offerId); cbn; [|reflexivity].
  destruct (locations (db w) !! locationId); cbn; [|reflexivity].
  destruct (negb _); [reflexivity|]. destruct (negb (hasItem _ _)); [reflexivity|].
  destruct (tw _ _) as [e|d]; [|reflexivity].
  destruct (is_transaction_canceled e); reflexivity.
Qed.

End Unfold.

(** ** Set facts *)

Lemma filter_length_pos {A} (p : A -> bool) (l : list A) :
  (0 < length (List.filter p l))%nat <-> exists x, In x l /\ p x = true.
Proof.
  induction l as [|a l IH]; simpl.
  - split; [lia | intros (x & [] & _)].
  - destruct (p a) eqn:E; simpl.
    + split; [eauto | lia].
    + rewrite IH. split; intros (x & Hx & Hp); [eauto|].
      destruct Hx as [<-|Hx]; [congruence | eauto].
Qed.

Lemma unlink_hasOffer_set (L : Location) (offerId : string) (s : gset string) :
  offerIds L = SetColl s ->
  unlink_hasOffer L offerId = bool_decide (s ∖ {[offerId]} ≠ ∅).
Proof.
  intros Hs. unfold unlink_hasOffer. rewrite Hs.
  destruct (Nat.ltb_spec 0 (length (List.filter (λ id, negb (String.eqb id offerId)) (elements s))))
    as [Hlt|Hge]; case_bool_decide as Hne; try reflexivity.
  - exfalso. apply filter_length_pos in Hlt as (x & Hin & Hp).
    apply negb_true_iff, String.eqb_neq in Hp.
    apply list_elem_of_In, elem_of_elements in Hin. set_solver.
  - exfalso. apply set_choose_L in Hne as [x Hx].
    assert (0 < length (List.filter (λ id, negb (String.eqb id offerId)) (elements s)))%nat;
      [|lia].
    apply filter_length_pos. exists x. split.
    + apply list_elem_of_In, elem_of_elements. set_solver.
    + apply negb_true_iff, String.eqb_neq. set_solver.
Qed.

Lemma link_result_eq (offer : Offer) (locationId now : string) :
  link_result offer locationId now = link_offer offer locationId now.
Proof.
  unfold link_result, link_offer. f_equal. f_equal.
  destruct (locationIds offer) as [s|]; cbn; unfold_leibniz; set_solver.
Qed.

Lemma size_ltb_set_remove (s : gset string) (x : string) :
  (if Nat.ltb 0 (size (s ∖ {[x]})) then Some (s ∖ {[x]}) else None) = set_remove s x.
Proof.
  unfold set_remove. destruct (Nat.ltb_spec 0 (size (s ∖ {[x]}))) as [H|H];
    case_bool_decide as E; try reflexivity.
  - rewrite E, size_empty in H. lia.
  - exfalso. apply E, leibniz_equiv, size_empty_iff. lia.
Qed.

(** ** Outcome of one link or unlink call *)

Lemma link_outcome (w : World) (offerId locationId now : string) :
  match link offerId locationId now w with
  | (inr res, w') =>
      exists offer location,
        offers (db w) !! offerId = Some offer /\
        locations (db w) !! locationId = Some location /\
        l_brandId location = o_brandId offer /\
        hasItem (offerIds location) offerId = false /\
        db w' = mkDb (brands (db w))
                  (<[locationId := link_loc location offerId now]> (locations (db w)))
                  (<[offerId := link_offer offer locationId now]> (offers (db w))) /\
        calls w' = calls w ++ [GetItem "offers" offerId; GetItem "locations" locationId;
                               TransactWriteItems (link_items offerId locationId now)] /\
        res = link_offer offer locationId now /\
        link_write_ok location offer offerId locationId = true
  | (inl _, w') => db w' = db w
  end.
Proof.
  unfold link. rewrite linkToLocation_steps. cbv zeta.
  destruct (offers (db w) !! offerId) as [offer|] eqn:HO; [|reflexivity].
  destruct (locations (db w) !! locationId) as [location|] eqn:HL; [|reflexivity].
  destruct (String.eqb_spec (l_brandId location) (o_brandId offer)) as [Hb|Hb];
    cbn; [|reflexivity].
  destruct (hasItem (offerIds location) offerId) eqn:Hh; [reflexivity|].
  rewrite (link_tx _ _ _ _ location offer HL HO).
  destruct (link_write_ok location offer offerId locationId) eqn:Hok; cbn; [|reflexivity].
  exists offer, location. rewrite link_result_eq.
  repeat split; auto. rewrite <- !app_assoc. reflexivity.
Qed.

Lemma unlink_outcome (w : World) (offerId locationId now : string) :
  match unlink offerId locationId now w with
  | (inr res, w') =>
      exists offer location s,
        offers (db w) !! offerId = Some offer /\
        locations (db w) !! locationId = Some location /\
        l_brandId location = o_brandId offer /\
        offerIds location = SetColl s /\ offerId ∈ s /\
        0 < locationsTotal offer /\ locationId ∈ default ∅ (locationIds offer) /\
        db w' = mkDb (brands (db w))
                  (<[locationId := unlink_loc location offerId
                                     (bool_decide (s ∖ {[offerId]} ≠ ∅)) now]>
                     (locations (db w)))
                  (<[offerId := unlink_offer offer locationId now]> (offers (db w))) /\
        0 <= locationsTotal (unlink_offer offer locationId now) /\
        calls w' = calls w ++
          [GetItem "offers" offerId; GetItem "locations" locationId;
           TransactWriteItems
             (unlink_items offerId locationId (bool_decide (s ∖ {[offerId]} ≠ ∅)) now)] /\
        ConditionExpression <$>
          unlink_items offerId locationId (bool_decide (s ∖ {[offerId]} ≠ ∅)) now !! 1%nat =
          Some (AndC (GtN "locationsTotal" 0) (contains "locationIds" locationId)) /\
        res = unlink_result offer locationId now /\
        locationIds res = set_remove (default ∅ (locationIds offer)) locationId /\
        locationsTotal res = Z.max 0 (locationsTotal offer - 1)
  | (inl _, w') => db w' = db w
  end.
Proof.
  unfold unlink. rewrite unlinkFromLocation_steps. cbv zeta.
  destruct (offers (db w) !! offerId) as [offer|] eqn:HO; [|reflexivity].
  destruct (locations (db w) !! locationId) as [location|] eqn:HL; [|reflexivity].
  destruct (String.eqb_spec (l_brandId location) (o_brandId offer)) as [Hb|Hb];
    cbn; [|reflexivity].
  destruct (hasItem (offerIds location) offerId) eqn:Hh; cbn; [|reflexivity].
  rewrite (unlink_tx _ _ _ _ _ location offer HL HO).
  destruct (unlink_write_ok location offer offerId locationId) eqn:Hok; cbn; [|reflexivity].
  unfold unlink_write_ok in Hok.
  destruct (offerIds location) as [|s|xs] eqn:Hs; [discriminate| |discriminate].
  apply andb_true_iff in Hok as [[Hin Htot]%andb_true_iff Hl].
  apply bool_decide_eq_true in Hin, Htot, Hl.
  rewrite (unlink_hasOffer_set location offerId s Hs).
  exists offer, location, s. repeat split; auto.
  - cbn. lia.
  - rewrite <- !app_assoc. reflexivity.
  - cbn. apply size_ltb_set_remove.
Qed.

Lemma size_set_remove (t : gset string) (x : string) :
  x ∈ t ->
  Z.of_nat (size (default ∅ (set_remove t x))) = Z.of_nat (size t) - 1.
Proof.
  intros Hx. unfold set_remove.
  assert (Hd : size (t ∖ {[x]}) = (size t - 1)%nat)
    by (rewrite size_difference by set_solver; now rewrite size_singleton).
  assert (Hp : (1 <= size t)%nat)
    by (rewrite <- (size_singleton (C:=gset string) x); apply subseteq_size; set_solver).
  case_bool_decide as E; cbn.
  - rewrite E, size_empty in Hd. rewrite size_empty. lia.
  - lia.
Qed.

Lemma link_preserves_inv (w : World) (offerId locationId now : string) :
  db_inv (db w) ->
  let (r, w') := link offerId locationId now w in
  db_inv (db w') /\ match r with inr res => offer_inv res | inl _ => True end.
Proof.
  intros [HOi HLi]. pose proof (link_outcome w offerId locationId now) as H.
  destruct (link offerId locationId now w) as [[e|res] w'].
  { rewrite H. split; [split; assumption | exact I]. }
  destruct H as (offer & location & HO & HL & Hb & Hh & Hdb & Hc & Hres & Hok).
  rewrite Hdb. subst res.
  pose proof (HOi _ _ HO) as Hoi. pose proof (HLi _ _ HL) as Hli.
  unfold link_write_ok in Hok. apply andb_true_iff in Hok as [Hok1 Hok2].
  apply negb_true_iff, bool_decide_eq_false in Hok2.
  assert (Hnew : offer_inv (link_offer offer locationId now)).
  { unfold offer_inv, link_offer in *; cbn.
    destruct (locationIds offer) as [t|]; cbn in *.
    - rewrite size_union by set_solver. rewrite size_singleton. lia.
    - rewrite size_empty in Hoi. rewrite size_singleton. lia. }
  split; [split|exact Hnew]; cbn.
  - apply map_Forall_insert_2; assumption.
  - apply map_Forall_insert_2; [|assumption].
    unfold loc_inv, link_loc; cbn. symmetry. apply bool_decide_eq_true.
    destruct (offerIds location); set_solver.
Qed.

Lemma unlink_preserves_inv (w : World) (offerId locationId now : string) :
  db_inv (db w) ->
  let (r, w') := unlink offerId locationId now w in
  db_inv (db w') /\ match r with inr res => offer_inv res | inl _ => True end.
Proof.
  intros [HOi HLi]. pose proof (unlink_outcome w offerId locationId now) as H.
  destruct (unlink offerId locationId now w) as [[e|res] w'].
  { rewrite H. split; [split; assumption | exact I]. }
  destruct H as (offer & location & s & HO & HL & Hb & Hs & Hin & Htot & Hl & Hdb
                 & Hnn & Hc & Hcond & Hres & Hids & Htotr).
  rewrite Hdb.
  pose proof (HOi _ _ HO) as Hoi. pose proof (HLi _ _ HL) as Hli.
  unfold offer_inv in Hoi.
  destruct (locationIds offer) as [t|] eqn:Ht; [|cbn in Hl; set_solver].
  cbn in Hl, Hoi, Hids.
  split; [split|]; cbn.
  - apply map_Forall_insert_2; [|assumption].
    unfold offer_inv, unlink_offer; cbn. rewrite Ht; cbn.
    rewrite size_set_remove by assumption. lia.
  - apply map_Forall_insert_2; [|assumption].
    unfold loc_inv, unlink_loc; cbn. rewrite Hs. unfold set_remove.
    case_bool_decide as E; cbn; case_bool_decide; try reflexivity; try contradiction.
    symmetry. apply bool_decide_eq_true. assumption.
  - unfold offer_inv. rewrite Htotr, Hids, size_set_remove by assumption. lia.
Qed.

Lemma run_op_preserves_inv (op : LinkOp) (w : World) :
  db_inv (db w) ->
  let (r, w') := run_op op w in
  db_inv (db w') /\ match r with inr res => offer_inv res | inl _ => True end.
Proof.
  destruct op; cbn; [apply link_preserves_inv | apply unlink_preserves_inv].
Qed.

(** ** Claims about [linkToLocation] and [unlinkFromLocation] *)

(** C1. When [linkToLocation] succeeds, the offer and the location
    existed, share the brand and were not linked; the store then holds the
    location with [offerId] added to [offerIds], [hasOffer = true] and
    [updatedAt = now], and the offer with [locationId] added to
    [locationIds], [locationsTotal + 1] and [updatedAt = now], written by
    the single [TransactWriteItems] call after the two reads (no read
    follows it); the returned offer is the offer read before the write
    plus that delta.  When it fails, neither record changed. *)
Theorem linkToLocation_atomic_effect (w : World) (offerId locationId now : string) :
  match link offerId locationId now w with
  | (inr res, w') =>
      exists offer location,
        offers (db w) !! offerId = Some offer /\
        locations (db w) !! locationId = Some location /\
        l_brandId location = o_brandId offer /\
        hasItem (offerIds location) offerId = false /\
        db w' = mkDb (brands (db w))
                  (<[locationId := link_loc location offerId now]> (locations (db w)))
                  (<[offerId := link_offer offer locationId now]> (offers (db w))) /\
        calls w' = calls w ++ [GetItem "offers" offerId; GetItem "locations" locationId;
                               TransactWriteItems (link_items offerId locationId now)] /\
        res = link_offer offer locationId now
  | (inl _, w') => db w' = db w
  end.
Proof.
  pose proof (link_outcome w offerId locationId now) as H.
  destruct (link offerId locationId now w) as [[e|res] w']; [exact H|].
  destruct H as (offer & location & H1 & H2 & H3 & H4 & H5 & H6 & H7 & _).
  exists offer, location. auto 10.
Qed.

(** C2. When [unlinkFromLocation] succeeds, the pair existed with the
    same brand and [offerId] was in the location's set [s]; one
    transaction wrote the location with [offerId] removed and
    [hasOffer] = (some other id remains in [s]), and the offer with
    [locationId] removed and [locationsTotal - 1], under the offer-side
    condition [locationsTotal > 0 AND contains(locationIds, locationId)],
    so the stored counter stays non-negative; the returned offer is the
    one read, with [locationId] removed and [max(0, locationsTotal - 1)].
    When it fails, neither record changed. *)
Theorem unlinkFromLocation_atomic_effect (w : World) (offerId locationId now : string) :
  match unlink offerId locationId now w with
  | (inr res, w') =>
      exists offer location s,
        offers (db w) !! offerId = Some offer /\
        locations (db w) !! locationId = Some location /\
        l_brandId location = o_brandId offer /\
        offerIds location = SetColl s /\ offerId ∈ s /\
        0 < locationsTotal offer /\ locationId ∈ default ∅ (locationIds offer) /\
        db w' = mkDb (brands (db w))
                  (<[locationId := unlink_loc location offerId
                                     (bool_decide (s ∖ {[offerId]} ≠ ∅)) now]>
                     (locations (db w)))
                  (<[offerId := unlink_offer offer locationId now]> (offers (db w))) /\
        0 <= locationsTotal (unlink_offer offer locationId now) /\
        calls w' = calls w ++
          [GetItem "offers" offerId; GetItem "locations" locationId;
           TransactWriteItems
             (unlink_items offerId locationId (bool_decide (s ∖ {[offerId]} ≠ ∅)) now)] /\
        ConditionExpression <$>
          unlink_items offerId locationId (bool_decide (s ∖ {[offerId]} ≠ ∅)) now !! 1%nat =
          Some (AndC (GtN "locationsTotal" 0) (contains "locationIds" locationId)) /\
        res = unlink_result offer locationId now /\
        locationIds res = set_remove (default ∅ (locationIds offer)) locationId /\
        locationsTotal res = Z.max 0 (locationsTotal offer - 1)
  | (inl _, w') => db w' = db w
  end.
Proof. exact (unlink_outcome w offerId locationId now). Qed.

(** C3. From a store where every offer has [locationsTotal = |locationIds|]
    and every location has [hasOffer = (offerIds non-empty)], any sequence
    of link and unlink calls, each succeeding or failing, keeps both
    invariants after every call, for the stored records and for the offer
    each successful call returns. *)
Theorem link_unlink_invariants (ops : list LinkOp) (w : World) :
  db_inv (db w) ->
  Forall (λ '(r, d), db_inv d /\ match r with inr res => offer_inv res | inl _ => True end)
    (fst (run_ops ops w)).
Proof.
  revert w. induction ops as [|op rest IH]; intros w Hinv; cbn; [constructor|].
  pose proof (run_op_preserves_inv op w Hinv) as Hstep.
  destruct (run_op op w) as [r w1].
  specialize (IH w1 (proj1 Hstep)).
  destruct (run_ops rest w1) as [rs w2]. cbn in *.
  constructor; assumption.
Qed.

Lemma link_unlink_invariants_witness :
  db_inv (db sample_world) /\
  Forall (λ '(r, d), db_inv d /\ match r with inr res => offer_inv res | inl _ => True end)
    (fst (run_ops [OpLink "o1" "l1" "t1"; OpLink "o1" "l1" "t2";
                   OpUnlink "o1" "l1" "t3"; OpUnlink "o1" "l1" "t4"] sample_world)).
Proof.
  assert (H : db_inv (db sample_world)).
  { split; cbn; apply map_Forall_singleton; reflexivity. }
  split; [exact H | apply (link_unlink_invariants _ _ H)].
Defined.

(** C4. When a read-time precondition of link or unlink fails (missing
    offer or location: NotFound; other brand: Conflict; already linked on
    link: Conflict; not linked on unlink: NotFound), whatever the store's
    write behaviour, the call rejects with that typed error after reads
    only: no write is issued and the store is unchanged. *)
Theorem precondition_failure_no_write
    (tw : Db -> list Update -> Thrown + Db) (op : LinkOp) (w : World) (k : ErrKind) :
  op_read_check (db w) op = Some k ->
  let (r, w') := run_op_with tw op w in
  (exists e, r = inl e /\ kind_of e = Some k) /\
  db w' = db w /\
  exists reads, calls w' = calls w ++ reads /\ Forall (λ c, is_write c = false) reads.
Proof.
  intros Hk. destruct op as [offerId locationId now|offerId locationId now];
    unfold op_read_check in Hk; cbn [run_op_with];
    [rewrite linkToLocation_steps | rewrite unlinkFromLocation_steps]; cbv zeta.
  all: destruct (offers (db w) !! offerId) as [offer|];
    [|injection Hk as <-; split; [eexists; split; reflexivity|];
      split; [reflexivity|]; exists [GetItem "offers" offerId];
      split; [reflexivity | repeat constructor]].
  all: destruct (locations (db w) !! locationId) as [location|];
    [|injection Hk as <-; split; [eexists; split; reflexivity|];
      split; [reflexivity|];
      exists [GetItem "offers" offerId; GetItem "locations" locationId];
      split; [cbn; rewrite <- app_assoc; reflexivity | repeat constructor]].
  all: destruct (negb _);
    [injection Hk as <-; split; [eexists; split; reflexivity|];
      split; [reflexivity|];
      exists [GetItem "offers" offerId; GetItem "locations" locationId];
      split; [cbn; rewrite <- app_assoc; reflexivity | repeat constructor]|].
  all: destruct (hasItem (offerIds location) offerId); cbn; try discriminate.
  all: injection Hk as <-; split; [eexists; split; reflexivity|];
      split; [reflexivity|];
      exists [GetItem "offers" offerId; GetItem "locations" locationId];
      split; [cbn; rewrite <- app_assoc; reflexivity | repeat constructor].
Qed.

Lemma precondition_failure_no_write_witness :
  op_read_check (db sample_world) (OpLink "o1" "l9" "t1") = Some KNotFound /\
  let (r, w') := run_op_with dynamo_transactWrite (OpLink "o1" "l9" "t1") sample_world in
  (exists e, r = inl e /\ kind_of e = Some KNotFound) /\
  db w' = db sample_world /\
  exists reads, calls w' = calls sample_world ++ reads /\
                Forall (λ c, is_write c = false) reads.
Proof.
  split; [reflexivity|].
  apply (precondition_failure_no_write dynamo_transactWrite (OpLink "o1" "l9" "t1")
           sample_world KNotFound).
  reflexivity.
Defined.

(** C5. When the reads pass and the store rejects the transaction, a
    [TransactionCanceledException] becomes Conflict for link and NotFound
    for unlink, and any other thrown value (unavailability, timeout) is
    re-thrown unchanged. *)
Theorem write_failure_translation
    (tw : Db -> list Update -> Thrown + Db) (op : LinkOp) (w : World) (e : Thrown) :
  (forall items, tw (db w) items = inl e) ->
  op_read_check (db w) op = None ->
  exists e', fst (run_op_with tw op w) = inl e' /\
    (is_transaction_canceled e = true -> kind_of e' = Some (write_failure_kind op)) /\
    (is_transaction_canceled e = false -> e' = e).
Proof.
  intros Htw Hk. destruct op as [offerId locationId now|offerId locationId now];
    unfold op_read_check in Hk; cbn [run_op_with];
    [rewrite linkToLocation_steps | rewrite unlinkFromLocation_steps]; cbv zeta.
  all: destruct (offers (db w) !! offerId) as [offer|]; [|discriminate].
  all: destruct (locations (db w) !! locationId) as [location|]; [|discriminate].
  all: destruct (negb _); [discriminate|].
  all: destruct (hasItem (offerIds location) offerId); cbn; try discriminate.
  all: rewrite Htw; cbn; eexists; split; [reflexivity|].
  all: destruct (is_transaction_canceled e); split; intros; try discriminate; reflexivity.
Qed.

Lemma write_failure_translation_witness :
  exists e', fst (run_op_with (λ _ _, inl TransactionCanceledException)
                   (OpLink "o1" "l1" "t1") sample_world) = inl e' /\
    (is_transaction_canceled TransactionCanceledException = true ->
       kind_of e' = Some (write_failure_kind (OpLink "o1" "l1" "t1"))) /\
    (is_transaction_canceled TransactionCanceledException = false ->
       e' = TransactionCanceledException).
Proof.
  apply (write_failure_translation (λ _ _, inl TransactionCanceledException)
           (OpLink "o1" "l1" "t1") sample_world TransactionCanceledException).
  - intros items. reflexivity.
  - reflexivity.
Defined.

Lemma union_singleton_remove (t : gset string) (x : string) :
  x ∉ t -> (t ∪ {[x]}) ∖ {[x]} = t.
Proof. intros Hx. unfold_leibniz. set_solver. Qed.

Lemma set_remove_union (t : gset string) (x : string) :
  x ∉ t -> t ≠ ∅ -> set_remove (t ∪ {[x]}) x = Some t.
Proof.
  intros Hx Ht. unfold set_remove. rewrite union_singleton_remove by assumption.
  rewrite bool_decide_eq_false_2 by assumption. reflexivity.
Qed.

Lemma set_remove_singleton (x : string) : set_remove {[x]} x = None.
Proof.
  unfold set_remove. rewrite bool_decide_eq_true_2; [reflexivity|].
  unfold_leibniz. set_solver.
Qed.

(** C6. For an offer and a location of a well-formed store (the
    location's [hasOffer] agrees with its [offerIds], and no stored
    string set is empty, as DynamoDB stores none), link followed by
    unlink of the pair, both succeeding, restores the offer's
    [locationsTotal] and [locationIds] and the location's [hasOffer] and
    [offerIds], in the store and in the offer the unlink returns. *)
Theorem link_then_unlink_roundtrip (w : World) (offerId locationId now1 now2 : string)
    (offer : Offer) (location : Location) :
  offers (db w) !! offerId = Some offer ->
  locations (db w) !! locationId = Some location ->
  loc_inv location ->
  offerIds location <> SetColl ∅ ->
  locationIds offer <> Some ∅ ->
  match link offerId locationId now1 w with
  | (inr _, w1) =>
      match unlink offerId locationId now2 w1 with
      | (inr res, w2) =>
          exists offer2 location2,
            offers (db w2) !! offerId = Some offer2 /\
            locations (db w2) !! locationId = Some location2 /\
            locationIds offer2 = locationIds offer /\
            locationsTotal offer2 = locationsTotal offer /\
            offerIds location2 = offerIds location /\
            hasOffer location2 = hasOffer location /\
            locationIds res = locationIds offer /\
            locationsTotal res = locationsTotal offer
      | (inl _, _) => True
      end
  | (inl _, _) => True
  end.
Proof.
  intros HO HL Hinv HsL HsO.
  pose proof (link_outcome w offerId locationId now1) as H1.
  destruct (link offerId locationId now1 w) as [[e|res1] w1]; [exact I|].
  destruct H1 as (offer' & location' & HO' & HL' & _ & Hh & Hdb1 & _ & _ & Hok).
  rewrite HO in HO'. injection HO' as <-. rewrite HL in HL'. injection HL' as <-.
  pose proof (unlink_outcome w1 offerId locationId now2) as H2.
  destruct (unlink offerId locationId now2 w1) as [[e|res] w2]; [exact I|].
  destruct H2 as (offer1 & location1 & s & HO1 & HL1 & _ & Hs & Hin & Htot & Hl & Hdb2
                  & _ & _ & _ & _ & Hids & Htotr).
  rewrite Hdb1 in HO1, HL1. cbn [offers locations] in HO1, HL1.
  rewrite lookup_insert_eq in HO1. rewrite lookup_insert_eq in HL1.
  injection HO1 as <-. injection HL1 as <-.
  rewrite Hdb2. cbn. rewrite !lookup_insert_eq.
  eexists _, _. split; [reflexivity|]. split; [reflexivity|].
  unfold link_write_ok in Hok. apply andb_true_iff in Hok as [Hok1 Hok2].
  apply negb_true_iff, bool_decide_eq_false in Hok2.
  unfold loc_inv in Hinv.
  unfold unlink_offer, unlink_loc, link_offer, link_loc in *; cbn in *.
  injection Hs as <-.
  assert (Hoff : set_remove (match locationIds offer with
                             | Some t => t ∪ {[locationId]}
                             | None => {[locationId]} end) locationId
                 = locationIds offer).
  { destruct (locationIds offer) as [t|]; cbn in *.
    - apply set_remove_union; [assumption|]. intros ->. apply HsO. reflexivity.
    - apply set_remove_singleton. }
  rewrite Hoff, Hids, Hoff, Htotr.
  split; [reflexivity|]. split; [lia|].
  split; [|split; [|split]].
  - destruct (offerIds location) as [|s0|xs]; [..|discriminate].
    + rewrite set_remove_singleton. reflexivity.
    + apply negb_true_iff, bool_decide_eq_false in Hok1.
      rewrite set_remove_union; [reflexivity | assumption |].
      intros ->. apply HsL. reflexivity.
  - rewrite Hinv. destruct (offerIds location) as [|s0|xs]; cbn; [..|discriminate].
    + apply bool_decide_eq_false. intros Hne. apply Hne. unfold_leibniz. set_solver.
    + apply negb_true_iff, bool_decide_eq_false in Hok1.
      rewrite union_singleton_remove by assumption. reflexivity.
  - reflexivity.
  - lia.
Qed.

Lemma link_then_unlink_roundtrip_witness :
  offers (db sample_world) !! "o1" = Some offer1 /\
  locations (db sample_world) !! "l1" = Some loc1 /\
  loc_inv loc1 /\ offerIds loc1 <> SetColl ∅ /\ locationIds offer1 <> Some ∅ /\
  match link "o1" "l1" "t1" sample_world with
  | (inr _, w1) =>
      match unlink "o1" "l1" "t2" w1 with
      | (inr res, w2) =>
          exists offer2 location2,
            offers (db w2) !! "o1" = Some offer2 /\
            locations (db w2) !! "l1" = Some location2 /\
            locationIds offer2 = locationIds offer1 /\
            locationsTotal offer2 = locationsTotal offer1 /\
            offerIds location2 = offerIds loc1 /\
            hasOffer location2 = hasOffer loc1 /\
            locationIds res = locationIds offer1 /\
            locationsTotal res = locationsTotal offer1
      | (inl _, _) => True
      end
  | (inl _, _) => True
  end.
Proof.
  assert (HO : offers (db sample_world) !! "o1" = Some offer1) by reflexivity.
  assert (HL : locations (db sample_world) !! "l1" = Some loc1) by reflexivity.
  assert (Hi : loc_inv loc1) by reflexivity.
  assert (H1 : offerIds loc1 <> SetColl ∅) by discriminate.
  assert (H2 : locationIds offer1 <> Some ∅) by discriminate.
  split; [exact HO|]. split; [exact HL|]. split; [exact Hi|].
  split; [exact H1|]. split; [exact H2|].
  exact (link_then_unlink_roundtrip sample_world "o1" "l1" "t1" "t2" offer1 loc1
           HO HL Hi H1 H2).
Defined.

(** ** Referential integrity under link, unlink and deletes *)

Lemma hasItem_SetColl (s : gset string) (x : string) :
  hasItem (SetColl s) x = true <-> x ∈ s.
Proof. cbn. apply bool_decide_eq_true. Qed.

Lemma hasItem_link_loc (L : Location) (offerId now x : string) :
  hasItem (offerIds (link_loc L offerId now)) x = true ->
  x = offerId \/ hasItem (offerIds L) x = true.
Proof.
  unfold link_loc; cbn [offerIds]. rewrite hasItem_SetColl.
  destruct (offerIds L) as [|s|xs]; intros Hx.
  - left. set_solver.
  - rewrite hasItem_SetColl. set_solver.
  - left. set_solver.
Qed.

Lemma hasItem_unlink_loc (L : Location) (s : gset string) (offerId now x : string)
    (h : bool) :
  offerIds L = SetColl s ->
  hasItem (offerIds (unlink_loc L offerId h now)) x = true ->
  x ≠ offerId /\ x ∈ s.
Proof.
  intros Hs. unfold unlink_loc; cbn [offerIds]. rewrite Hs. unfold set_remove.
  case_bool_decide; cbv beta iota; [discriminate|]. rewrite hasItem_SetColl. set_solver.
Qed.

Lemma in_link_offer (O : Offer) (locationId now x : string) :
  x = locationId \/ x ∈ default ∅ (locationIds O) ->
  x ∈ default ∅ (locationIds (link_offer O locationId now)).
Proof. unfold link_offer; cbn. destruct (locationIds O); cbn; set_solver. Qed.

Lemma in_unlink_offer (O : Offer) (locationId now x : string) :
  x ≠ locationId -> x ∈ default ∅ (locationIds O) ->
  x ∈ default ∅ (locationIds (unlink_offer O locationId now)).
Proof.
  unfold unlink_offer; cbn. destruct (locationIds O) as [t|]; cbn; [|set_solver].
  intros Hne Hx. unfold set_remove. case_bool_decide as He.
  - exfalso. assert (Hx' : x ∈ t ∖ {[locationId]}) by set_solver.
    rewrite He in Hx'. set_solver.
  - cbn. set_solver.
Qed.

Lemma link_preserves_refs (w : World) (offerId locationId now : string) :
  loc_refs_linked (db w) -> loc_refs_linked (db (snd (link offerId locationId now w))).
Proof.
  intros Hinv. pose proof (link_outcome w offerId locationId now) as H.
  destruct (link offerId locationId now w) as [[e|res] w']; cbn.
  { rewrite H. exact Hinv. }
  destruct H as (offer & location & HO & HL & _ & _ & Hdb & _).
  rewrite Hdb. intros lid L x HL' Hx; cbn in *.
  destruct (String.eq_dec lid locationId) as [->|Hne].
  - rewrite lookup_insert_eq in HL'. injection HL' as <-.
    destruct (String.eq_dec x offerId) as [->|Hxo].
    + rewrite lookup_insert_eq. eexists; split; [reflexivity|].
      apply in_link_offer. left. reflexivity.
    + destruct (hasItem_link_loc _ _ _ _ Hx) as [?|Hold]; [contradiction|].
      destruct (Hinv _ _ _ HL Hold) as (O & HOx & Hin).
      rewrite lookup_insert_ne by congruence. eauto.
  - rewrite lookup_insert_ne in HL' by congruence.
    destruct (Hinv _ _ _ HL' Hx) as (O & HOx & Hin).
    destruct (String.eq_dec x offerId) as [->|Hxo].
    + rewrite lookup_insert_eq. eexists; split; [reflexivity|].
      rewrite HO in HOx. injection HOx as <-. apply in_link_offer. right. exact Hin.
    + rewrite lookup_insert_ne by congruence. eauto.
Qed.

Lemma unlink_preserves_refs (w : World) (offerId locationId now : string) :
  loc_refs_linked (db w) -> loc_refs_linked (db (snd (unlink offerId locationId now w))).
Proof.
  intros Hinv. pose proof (unlink_outcome w offerId locationId now) as H.
  destruct (unlink offerId locationId now w) as [[e|res] w']; cbn.
  { rewrite H. exact Hinv. }
  destruct H as (offer & location & s & HO & HL & _ & Hs & _ & _ & _ & Hdb & _).
  rewrite Hdb. intros lid L x HL' Hx; cbn in *.
  destruct (String.eq_dec lid locationId) as [->|Hne].
  - rewrite lookup_insert_eq in HL'. injection HL' as <-.
    destruct (hasItem_unlink_loc _ _ _ _ _ _ Hs Hx) as [Hxo Hxs].
    apply (hasItem_SetColl s x) in Hxs. rewrite <- Hs in Hxs.
    destruct (Hinv _ _ _ HL Hxs) as (O & HOx & Hin).
    rewrite lookup_insert_ne by congruence. eauto.
  - rewrite lookup_insert_ne in HL' by congruence.
    destruct (Hinv _ _ _ HL' Hx) as (O & HOx & Hin).
    destruct (String.eq_dec x offerId) as [->|Hxo].
    + rewrite lookup_insert_eq. eexists; split; [reflexivity|].
      rewrite HO in HOx. injection HOx as <-. apply in_unlink_offer; assumption.
    + rewrite lookup_insert_ne by congruence. eauto.
Qed.

(** The sample store with [o1] linked to [l1] and then [o1] deleted. *)
Lemma offer_delete_leaves_stale_offerId :
  loc_refs_linked (db sample_world) /\
  fst (link "o1" "l1" "t1" sample_world) = inr (link_offer offer1 "l1" "t1") /\
  loc_refs_linked (db (snd (link "o1" "l1" "t1" sample_world))) /\
  fst (offersService_remove "o1" (snd (link "o1" "l1" "t1" sample_world))) = inr tt /\
  ~ loc_refs_linked
      (db (snd (offersService_remove "o1" (snd (link "o1" "l1" "t1" sample_world))))).
Proof.
  assert (H0 : loc_refs_linked (db sample_world)).
  { intros lid L x HL Hx. cbn in HL.
    destruct (String.eq_dec lid "l1") as [->|Hne].
    - vm_compute in HL. injection HL as <-. discriminate Hx.
    - rewrite lookup_singleton_ne in HL by congruence. discriminate HL. }
  split; [exact H0|]. split; [vm_compute; reflexivity|].
  split; [apply link_preserves_refs; exact H0|]. split; [vm_compute; reflexivity|].
  intros Hr.
  destruct (Hr "l1" (link_loc loc1 "o1" "t1") "o1") as (O & HO & _).
  - vm_compute. reflexivity.
  - vm_compute. reflexivity.
  - vm_compute in HO. discriminate HO.
Qed.

(** ** Plain updates and the link fields *)

Lemma fmap_insert_same {A B} (f : A -> B) (m : gmap string A) (k : string) (a b : A) :
  m !! k = Some a -> f b = f a -> <[k := f b]> (f <$> m) = f <$> m.
Proof. intros Hk Hf. rewrite Hf. apply insert_id. rewrite lookup_fmap, Hk. reflexivity. Qed.

Lemma offersService_update_db (w : World) (id now : string) (dto : UpdateOfferDto) :
  db (snd (offersService_update id dto now w)) = db w \/
  exists offer,
    offers (db w) !! id = Some offer /\
    db (snd (offersService_update id dto now w)) =
    mkDb (brands (db w)) (locations (db w))
      (<[o_id offer := mkOffer (o_id offer) (default (o_name offer) (uo_name dto))
                         (o_brandId offer) (default (description offer) (uo_description dto))
                         (locationIds offer) (locationsTotal offer) (o_createdAt offer) now]>
         (offers (db w))).
Proof.
  unfold offersService_update, offersService_findOne, offersRepository_findById,
    offersRepository_findByBrandIdAndName, offersRepository_put,
    mbind, M_bind, mret, M_ret, throw, log, set_db.
  cbn. destruct (offers (db w) !! id) as [offer|] eqn:HO; cbn; [|left; reflexivity].
  destruct (truthy (uo_name dto)) as [n|]; cbn;
    [destruct (String.eqb n (o_name offer)); cbn; [|destruct (head _); cbn] |].
  all: try destruct (has_empty_key _);
    first [left; reflexivity | right; eexists; split; reflexivity].
Qed.

Lemma locationsService_update_db (toLowerCase : string -> string)
    (w : World) (id now : string) (dto : UpdateLocationDto) :
  db (snd (locationsService_update toLowerCase id dto now w)) = db w \/
  exists location nl,
    locations (db w) !! id = Some location /\
    db (snd (locationsService_update toLowerCase id dto now w)) =
    mkDb (brands (db w))
      (<[l_id location := mkLocation (l_id location) (l_brandId location)
                            (default (l_name location) (ul_name dto)) nl
                            (default (address location) (ul_address dto))
                            (offerIds location) (hasOffer location)
                            (l_createdAt location) now]>
         (locations (db w)))
      (offers (db w)).
Proof.
  unfold locationsService_update, locationsService_findOne, locationsRepository_findById,
    locationsRepository_findByBrandIdAndNameLower, locationsRepository_put,
    mbind, M_bind, mret, M_ret, throw, log, set_db.
  cbn. destruct (locations (db w) !! id) as [location|] eqn:HL; cbn; [|left; reflexivity].
  destruct (truthy (ul_name dto)) as [n|]; cbn;
    [destruct (String.eqb (toLowerCase n) (nameLower location)); cbn;
     [|destruct (head _); cbn] |].
  all: try destruct (has_empty_key _);
    first [left; reflexivity | right; do 2 eexists; split; reflexivity].
Qed.

(** C8. [OffersService.update] and [LocationsService.update] leave the
    link fields of every stored record as they were: [locationIds] and
    [locationsTotal] of each offer, [offerIds] and [hasOffer] of each
    location, whatever the update DTO and the lowering function, provided
    each stored record carries its key as its id. *)
Theorem updates_keep_link_fields (toLowerCase : string -> string)
    (w : World) (offerId locationId now : string)
    (odto : UpdateOfferDto) (ldto : UpdateLocationDto) :
  (forall offer, offers (db w) !! offerId = Some offer -> o_id offer = offerId) ->
  (forall location, locations (db w) !! locationId = Some location ->
                    l_id location = locationId) ->
  offer_links (db (snd (offersService_update offerId odto now w))) = offer_links (db w) /\
  loc_links (db (snd (offersService_update offerId odto now w))) = loc_links (db w) /\
  offer_links (db (snd (locationsService_update toLowerCase locationId ldto now w)))
    = offer_links (db w) /\
  loc_links (db (snd (locationsService_update toLowerCase locationId ldto now w)))
    = loc_links (db w).
Proof.
  intros HidO HidL. split; [|split; [|split]].
  - destruct (offersService_update_db w offerId now odto) as [->|(offer & HO & ->)];
      [reflexivity|].
    unfold offer_links; cbn. rewrite fmap_insert, (HidO _ HO).
    apply (fmap_insert_same (λ o, (locationIds o, locationsTotal o)) _ _ offer); auto.
  - destruct (offersService_update_db w offerId now odto) as [->|(offer & HO & ->)];
      reflexivity.
  - destruct (locationsService_update_db toLowerCase w locationId now ldto)
      as [->|(location & nl & HL & ->)];
      reflexivity.
  - destruct (locationsService_update_db toLowerCase w locationId now ldto)
      as [->|(location & nl & HL & ->)];
      [reflexivity|].
    unfold loc_links; cbn. rewrite fmap_insert, (HidL _ HL).
    apply (fmap_insert_same (λ l, (offerIds l, hasOffer l)) _ _ location); auto.
Qed.

Lemma updates_keep_link_fields_witness :
  offer_links (db (snd (offersService_update "o1"
                          (mkUpdateOfferDto (Some "15% Off") None) "t1" sample_world)))
    = offer_links (db sample_world) /\
  loc_links (db (snd (offersService_update "o1"
                        (mkUpdateOfferDto (Some "15% Off") None) "t1" sample_world)))
    = loc_links (db sample_world) /\
  offer_links (db (snd (locationsService_update latin1_toLowerCase "l1"
                          (mkUpdateLocationDto (Some "MAIN ST") None) "t1" sample_world)))
    = offer_links (db sample_world) /\
  loc_links (db (snd (locationsService_update latin1_toLowerCase "l1"
                        (mkUpdateLocationDto (Some "MAIN ST") None) "t1" sample_world)))
    = loc_links (db sample_world).
Proof.
  apply updates_keep_link_fields.
  - intros offer HO. vm_compute in HO. injection HO as <-. reflexivity.
  - intros location HL. vm_compute in HL. injection HL as <-. reflexivity.
Defined.

(** ** Location name uniqueness *)

Lemma head_filter_found {A} (p : A -> bool) (m : gmap string A) (k : string) (x : A) :
  m !! k = Some x -> p x = true ->
  exists y, head (List.filter p (map snd (map_to_list m))) = Some y.
Proof.
  intros Hk Hp.
  destruct (List.filter p (map snd (map_to_list m))) as [|y ys] eqn:E; [|eauto].
  exfalso. assert (Hin : In x (List.filter p (map snd (map_to_list m)))).
  { apply filter_In. split; [|exact Hp]. apply in_map_iff. exists (k, x).
    split; [reflexivity|]. apply list_elem_of_In, elem_of_map_to_list. exact Hk. }
  rewrite E in Hin. destruct Hin.
Qed.

(** C9. Creating a location whose name equals, up to letter case, the
    name of a stored location of the same brand (whose [nameLower] is its
    lower-cased name) is rejected with a Conflict and writes nothing; a
    created location is stored under its new id with [nameLower] the
    lower-cased name.  [toLowerCase] is any lowering function, so in
    particular JavaScript's [String.prototype.toLowerCase]. *)
Theorem location_name_unique_ignoring_case (toLowerCase : string -> string)
    (w : World) (dto : CreateLocationDto)
    (newId now lid : string) (brand : Brand) (existing : Location) :
  brands (db w) !! cl_brandId dto = Some brand ->
  locations (db w) !! lid = Some existing ->
  l_brandId existing = cl_brandId dto ->
  nameLower existing = toLowerCase (l_name existing) ->
  toLowerCase (l_name existing) = toLowerCase (cl_name dto) ->
  (exists msg, fst (locationsService_create toLowerCase dto newId now w)
    = inl (ConflictException msg)) /\
  db (snd (locationsService_create toLowerCase dto newId now w)) = db w /\
  forall w0, match locationsService_create toLowerCase dto newId now w0 with
             | (inr location, w') =>
                 nameLower location = toLowerCase (cl_name dto) /\
                 locations (db w') !! newId = Some location
             | (inl _, _) => True
             end.
Proof.
  intros HB HL Hb Hnl Hname.
  unfold locationsService_create, brandsService_findOne, brandsRepository_findById,
    locationsRepository_findByBrandIdAndNameLower, locationsRepository_put,
    mbind, M_bind, mret, M_ret, throw, log, set_db.
  cbn. split; [|split].
  - rewrite HB. cbn.
    destruct (head_filter_found
                (λ l, String.eqb (l_brandId l) (cl_brandId dto)
                      && String.eqb (nameLower l) (toLowerCase (cl_name dto)))
                _ _ _ HL) as [y ->].
    { rewrite Hb, Hnl, Hname, !String.eqb_refl. reflexivity. }
    cbn. eexists. reflexivity.
  - rewrite HB. cbn.
    destruct (head_filter_found
                (λ l, String.eqb (l_brandId l) (cl_brandId dto)
                      && String.eqb (nameLower l) (toLowerCase (cl_name dto)))
                _ _ _ HL) as [y ->].
    { rewrite Hb, Hnl, Hname, !String.eqb_refl. reflexivity. }
    reflexivity.
  - intros w0. destruct (brands (db w0) !! cl_brandId dto); cbn; [|exact I].
    destruct (head _); cbn; [exact I|].
    destruct (has_empty_key _); cbn; [exact I|].
    split; [reflexivity|]. apply lookup_insert_eq.
Qed.


Lemma location_name_unique_ignoring_case_witness :
  (exists msg, fst (locationsService_create latin1_toLowerCase ecole_upper "l4" "t1" sample_world3)
                 = inl (ConflictException msg)) /\
  db (snd (locationsService_create latin1_toLowerCase ecole_upper "l4" "t1" sample_world3))
    = db sample_world3 /\
  forall w0, match locationsService_create latin1_toLowerCase ecole_upper "l4" "t1" w0 with
             | (inr location, w') =>
                 nameLower location = latin1_toLowerCase (cl_name ecole_upper) /\
                 locations (db w') !! "l4" = Some location
             | (inl _, _) => True
             end.
Proof.
  apply (location_name_unique_ignoring_case latin1_toLowerCase sample_world3 ecole_upper
           "l4" "t1" "l3" acme loc_ecole); vm_compute; reflexivity.
Defined.

(** ** Membership of the three representations of a linked-id set *)

(** C10. [hasItem] is defined on an absent attribute, a string set and a
    list, and holds exactly when the collection is present and holds the
    item.  So on a location whose [offerIds] is absent, a link of an
    offer of the same brand passes its checks and issues the transaction
    (whatever the store answers), and an unlink is rejected with NotFound
    after the two reads, writing nothing. *)
Theorem hasItem_total_and_absent_offerIds
    (tw : Db -> list Update -> Thrown + Db) (w : World)
    (offerId locationId now : string) (offer : Offer) (location : Location)
    (c : Coll) (x : string) :
  offers (db w) !! offerId = Some offer ->
  locations (db w) !! locationId = Some location ->
  l_brandId location = o_brandId offer ->
  offerIds location = Undefined ->
  (hasItem c x = true <->
     match c with Undefined => False | SetColl s => x ∈ s | ArrColl l => In x l end) /\
  calls (snd (linkToLocation tw offerId locationId now w)) =
    calls w ++ [GetItem "offers" offerId; GetItem "locations" locationId;
                TransactWriteItems (link_items offerId locationId now)] /\
  (exists msg, fst (unlinkFromLocation tw offerId locationId now w)
                 = inl (NotFoundException msg)) /\
  snd (unlinkFromLocation tw offerId locationId now w) =
    mkWorld (db w) (calls w ++ [GetItem "offers" offerId; GetItem "locations" locationId]).
Proof.
  intros HO HL Hb Hu. split; [|split; [|split]].
  - destruct c as [|s|l]; cbn.
    + split; [discriminate | intros []].
    + apply bool_decide_eq_true.
    + rewrite existsb_exists. split.
      * intros (y & Hy & Hxy). apply String.eqb_eq in Hxy. subst y. exact Hy.
      * intros Hx. exists x. split; [exact Hx | apply String.eqb_refl].
  - rewrite linkToLocation_steps. cbv zeta. rewrite HO, HL, Hb, String.eqb_refl, Hu.
    cbn. destruct (tw (db w) (link_items offerId locationId now)); cbn;
      rewrite <- !app_assoc; reflexivity.
  - rewrite unlinkFromLocation_steps. cbv zeta. rewrite HO, HL, Hb, String.eqb_refl, Hu.
    cbn. eexists. reflexivity.
  - rewrite unlinkFromLocation_steps. cbv zeta. rewrite HO, HL, Hb, String.eqb_refl, Hu.
    cbn. unfold log; cbn. rewrite <- app_assoc. reflexivity.
Qed.

Lemma hasItem_total_and_absent_offerIds_witness :
  (hasItem (ArrColl ["o1"]) "o1" = true <->
     match ArrColl ["o1"] with
     | Undefined => False | SetColl s => "o1" ∈ s | ArrColl l => In "o1" l end) /\
  calls (snd (link "o1" "l1" "t1" sample_world)) =
    calls sample_world ++ [GetItem "offers" "o1"; GetItem "locations" "l1";
                           TransactWriteItems (link_items "o1" "l1" "t1")] /\
  (exists msg, fst (unlink "o1" "l1" "t1" sample_world) = inl (NotFoundException msg)) /\
  snd (unlink "o1" "l1" "t1" sample_world) =
    mkWorld (db sample_world)
      (calls sample_world ++ [GetItem "offers" "o1"; GetItem "locations" "l1"]).
Proof.
  apply (hasItem_total_and_absent_offerIds dynamo_transactWrite sample_world
           "o1" "l1" "t1" offer1 loc1); reflexivity.
Defined.

(** * Further properties of the services *)

(** ** First item of an index query *)

Lemma head_filter_none {A} (p : A -> bool) (m : gmap string A) :
  (forall k x, m !! k = Some x -> p x = false) ->
  head (List.filter p (map snd (map_to_list m))) = None.
Proof.
  intros Hno.
  destruct (List.filter p (map snd (map_to_list m))) as [|y ys] eqn:E; [reflexivity|].
  exfalso. assert (Hin : In y (List.filter p (map snd (map_to_list m)))).
  { rewrite E. left. reflexivity. }
  apply filter_In in Hin as [Hin Hp]. apply in_map_iff in Hin as ([k x] & <- & Hkx).
  apply list_elem_of_In, elem_of_map_to_list in Hkx. cbn in Hp.
  rewrite (Hno _ _ Hkx) in Hp. discriminate.
Qed.

Lemma head_filter_some {A} (p : A -> bool) (m : gmap string A) (y : A) :
  head (List.filter p (map snd (map_to_list m))) = Some y ->
  exists k, m !! k = Some y /\ p y = true.
Proof.
  intros Hh. destruct (List.filter p (map snd (map_to_list m))) as [|z zs] eqn:E;
    [discriminate|].
  injection Hh as ->.
  assert (Hin : In y (List.filter p (map snd (map_to_list m)))).
  { rewrite E. left. reflexivity. }
  apply filter_In in Hin as [Hin Hp]. apply in_map_iff in Hin as ([k x] & Hx & Hkx).
  cbn in Hx. subst x. apply list_elem_of_In, elem_of_map_to_list in Hkx. eauto.
Qed.

Lemma andb_eqb_true (a b c d : string) :
  (String.eqb a b && String.eqb c d)%bool = true <-> a = b /\ c = d.
Proof. rewrite andb_true_iff, !String.eqb_eq. reflexivity. Qed.

Lemma andb_eqb_false (a b c d : string) :
  ~ (a = b /\ c = d) -> (String.eqb a b && String.eqb c d)%bool = false.
Proof.
  intros H. destruct (String.eqb a b && String.eqb c d)%bool eqn:E; [|reflexivity].
  exfalso. apply H, andb_eqb_true, E.
Qed.

(** ** [OffersService.create] *)

Lemma offersService_create_steps (dto : CreateOfferDto) (newId now : string) (w : World) :
  offersService_create dto newId now w =
  let w1 := log (GetItem "brands" (co_brandId dto)) w in
  match brands (db w) !! co_brandId dto with
  | None =>
      (inl (NotFoundException ("Brand with id " +:+ co_brandId dto +:+ " not found")), w1)
  | Some _ =>
      let w2 := log (QueryIndex "offers" "brandId-name-index" (co_brandId dto) (co_name dto)) w1 in
      match head (List.filter
                    (λ o, String.eqb (o_brandId o) (co_brandId dto)
                          && String.eqb (o_name o) (co_name dto))
                    (map snd (map_to_list (offers (db w))))) with
      | Some _ =>
          (inl (ConflictException ("Offer with name " +:+ co_name dto
                 +:+ " already exists for this brand")), w2)
      | None =>
          let offer := mkOffer newId (co_name dto) (co_brandId dto) (co_description dto)
                         None 0 now now in
          if has_empty_key (offer_keys offer)
          then (inl empty_key_error, log (PutItem "offers" newId) w2) else
          (inr offer,
           log (PutItem "offers" newId)
             (set_db (mkDb (brands (db w)) (locations (db w))
                        (<[newId := offer]> (offers (db w)))) w2))
      end
  end.
Proof.
  unfold offersService_create, brandsService_findOne, brandsRepository_findById,
    offersRepository_findByBrandIdAndName, offersRepository_put,
    mbind, M_bind, mret, M_ret, throw, log, set_db.
  cbn. destruct (brands (db w) !! co_brandId dto); cbn; [|reflexivity].
  destruct (head _); reflexivity.
Qed.

(** [OffersService.create] and [LocationsService.create] reject an
    unknown brand with NotFound after reading only the brand. *)
Theorem create_unknown_brand_not_found (toLowerCase : string -> string)
    (w : World) (odto : CreateOfferDto)
    (ldto : CreateLocationDto) (newId now : string) :
  brands (db w) !! co_brandId odto = None ->
  brands (db w) !! cl_brandId ldto = None ->
  (exists msg, fst (offersService_create odto newId now w) = inl (NotFoundException msg)) /\
  snd (offersService_create odto newId now w) = log (GetItem "brands" (co_brandId odto)) w /\
  (exists msg, fst (locationsService_create toLowerCase ldto newId now w)
    = inl (NotFoundException msg)) /\
  snd (locationsService_create toLowerCase ldto newId now w)
    = log (GetItem "brands" (cl_brandId ldto)) w.
Proof.
  intros HO HL. rewrite offersService_create_steps. cbv zeta. rewrite HO.
  unfold locationsService_create, brandsService_findOne, brandsRepository_findById,
    mbind, M_bind, mret, M_ret, throw.
  cbn. rewrite HL. cbn. split; [eexists; reflexivity|].
  split; [reflexivity|]. split; [eexists; reflexivity|reflexivity].
Qed.

Lemma create_unknown_brand_not_found_witness :
  let w := sample_world in
  let odto := mkCreateOfferDto "nobrand" "Deal" "Half price" in
  let ldto := mkCreateLocationDto "nobrand" "High St" "3 High St" in
  (exists msg, fst (offersService_create odto "o2" "t1" w) = inl (NotFoundException msg)) /\
  snd (offersService_create odto "o2" "t1" w) = log (GetItem "brands" (co_brandId odto)) w /\
  (exists msg, fst (locationsService_create latin1_toLowerCase ldto "o2" "t1" w)
    = inl (NotFoundException msg)) /\
  snd (locationsService_create latin1_toLowerCase ldto "o2" "t1" w)
    = log (GetItem "brands" (cl_brandId ldto)) w.
Proof.
  cbv zeta. apply create_unknown_brand_not_found; reflexivity.
Defined.

(** [OffersService.create] rejects a name already taken, with the same
    letter case, by an offer of the same brand: Conflict after the brand
    read and the index query, nothing written. *)
Theorem offersService_create_duplicate_conflict (w : World) (dto : CreateOfferDto)
    (newId now k : string) (brand : Brand) (other : Offer) :
  brands (db w) !! co_brandId dto = Some brand ->
  offers (db w) !! k = Some other ->
  o_brandId other = co_brandId dto ->
  o_name other = co_name dto ->
  (exists msg, fst (offersService_create dto newId now w) = inl (ConflictException msg)) /\
  snd (offersService_create dto newId now w) =
    mkWorld (db w) (calls w ++ [GetItem "brands" (co_brandId dto);
                                QueryIndex "offers" "brandId-name-index"
                                  (co_brandId dto) (co_name dto)]).
Proof.
  intros HB HO Hb Hn. rewrite offersService_create_steps. cbv zeta. rewrite HB.
  destruct (head_filter_found
              (λ o, String.eqb (o_brandId o) (co_brandId dto)
                    && String.eqb (o_name o) (co_name dto)) _ _ _ HO) as [y ->].
  { apply andb_eqb_true. split; assumption. }
  split; [eexists; reflexivity|]. unfold log; cbn. rewrite <- app_assoc. reflexivity.
Qed.

Lemma offersService_create_duplicate_conflict_witness :
  let dto := mkCreateOfferDto "acme" "10% Off" "Another ten" in
  (exists msg, fst (offersService_create dto "o2" "t1" sample_world)
                 = inl (ConflictException msg)) /\
  snd (offersService_create dto "o2" "t1" sample_world) =
    mkWorld (db sample_world)
      (calls sample_world ++ [GetItem "brands" (co_brandId dto);
                              QueryIndex "offers" "brandId-name-index"
                                (co_brandId dto) (co_name dto)]).
Proof.
  cbv zeta. apply (offersService_create_duplicate_conflict sample_world _ "o2" "t1" "o1" acme offer1);
    reflexivity.
Defined.

Lemma head_filter_none_inv {A} (p : A -> bool) (m : gmap string A) (k : string) (x : A) :
  head (List.filter p (map snd (map_to_list m))) = None ->
  m !! k = Some x -> p x = false.
Proof.
  intros Hh Hk. destruct (p x) eqn:Hp; [|reflexivity].
  destruct (head_filter_found p m k x Hk Hp) as [y Hy]. congruence.
Qed.

(** [OffersService.create] under a fresh id returns an offer with no
    [locationIds] and [locationsTotal = 0], stores it under that id, and
    keeps the counter invariant, the referential integrity of [offerIds]
    and the uniqueness of [(brandId, name)]; when it fails it writes
    nothing. *)
Theorem offersService_create_fresh (w : World) (dto : CreateOfferDto) (newId now : string) :
  offers (db w) !! newId = None ->
  db_inv (db w) -> loc_refs_linked (db w) -> offer_names_unique (db w) ->
  match offersService_create dto newId now w with
  | (inr offer, w') =>
      locationsTotal offer = 0 /\ locationIds offer = None /\
      offers (db w') !! newId = Some offer /\
      db_inv (db w') /\ loc_refs_linked (db w') /\ offer_names_unique (db w')
  | (inl _, w') => db w' = db w
  end.
Proof.
  intros Hfresh [HOi HLi] Hrefs Huniq. rewrite offersService_create_steps. cbv zeta.
  destruct (brands (db w) !! co_brandId dto) as [brand|]; [|reflexivity].
  destruct (head _) as [y|] eqn:Hh; [reflexivity|].
  pose proof (λ k x Hk, head_filter_none_inv _ _ k x Hh Hk) as Hno. cbn beta in Hno.
  destruct (has_empty_key _); [reflexivity|].
  cbn. split; [reflexivity|]. split; [reflexivity|].
  split; [apply lookup_insert_eq|]. split; [|split].
  - split; cbn; [|exact HLi]. apply map_Forall_insert_2; [|exact HOi].
    unfold offer_inv; cbn. rewrite size_empty. reflexivity.
  - intros lid L x HL Hx; cbn in *. destruct (Hrefs _ _ _ HL Hx) as (O & HO & Hin).
    exists O. split; [|exact Hin]. rewrite lookup_insert_ne; [exact HO|]. congruence.
  - intros k1 k2 o1 o2 H1 H2 Hb Hn; cbn in *.
    destruct (String.eq_dec k1 newId) as [->|Hne1];
      destruct (String.eq_dec k2 newId) as [->|Hne2]; [reflexivity| | |].
    + rewrite lookup_insert_eq in H1. rewrite lookup_insert_ne in H2 by congruence.
      injection H1 as <-. cbn in Hb, Hn.
      pose proof (Hno _ _ H2) as Hf. apply Bool.not_true_iff_false in Hf.
      exfalso. apply Hf, andb_eqb_true. split; symmetry; assumption.
    + rewrite lookup_insert_eq in H2. rewrite lookup_insert_ne in H1 by congruence.
      injection H2 as <-. cbn in Hb, Hn.
      pose proof (Hno _ _ H1) as Hf. apply Bool.not_true_iff_false in Hf.
      exfalso. apply Hf, andb_eqb_true. split; assumption.
    + rewrite lookup_insert_ne in H1, H2 by congruence. exact (Huniq _ _ _ _ H1 H2 Hb Hn).
Qed.

(** ** The sample store satisfies the store invariants *)

Lemma sample_db_inv : db_inv (db sample_world).
Proof.
  split; cbn; apply map_Forall_singleton; reflexivity.
Qed.

Lemma sample_refs : loc_refs_linked (db sample_world).
Proof.
  intros lid L x HL Hx. cbn in HL. apply lookup_singleton_Some in HL as [<- <-].
  discriminate Hx.
Qed.

Lemma sample_keys : keys_are_ids (db sample_world).
Proof.
  split; [|split]; cbn; intros k r Hk; apply lookup_singleton_Some in Hk as [<- <-];
    reflexivity.
Qed.

Lemma sample_offer_names : offer_names_unique (db sample_world).
Proof.
  intros k1 k2 o1 o2 H1 H2 _ _. cbn in *.
  apply lookup_singleton_Some in H1 as [<- _]. apply lookup_singleton_Some in H2 as [<- _].
  reflexivity.
Qed.

Lemma sample_loc_names : loc_names_unique (db sample_world).
Proof.
  intros k1 k2 l1 l2 H1 H2 _ _. cbn in *.
  apply lookup_singleton_Some in H1 as [<- _]. apply lookup_singleton_Some in H2 as [<- _].
  reflexivity.
Qed.

Lemma sample_brand_names : brand_names_unique (db sample_world).
Proof.
  intros k1 k2 b1 b2 H1 H2 _. cbn in *.
  apply lookup_singleton_Some in H1 as [<- _]. apply lookup_singleton_Some in H2 as [<- _].
  reflexivity.
Qed.

Lemma offersService_create_fresh_witness :
  let dto := mkCreateOfferDto "acme" "Half Price" "Fifty percent" in
  offers (db sample_world) !! "o2" = None /\
  match offersService_create dto "o2" "t1" sample_world with
  | (inr offer, w') =>
      locationsTotal offer = 0 /\ locationIds offer = None /\
      offers (db w') !! "o2" = Some offer /\
      db_inv (db w') /\ loc_refs_linked (db w') /\ offer_names_unique (db w')
  | (inl _, w') => db w' = db sample_world
  end.
Proof.
  cbv zeta. split; [reflexivity|].
  apply offersService_create_fresh;
    [reflexivity | exact sample_db_inv | exact sample_refs | exact sample_offer_names].
Defined.

(** ** Unique keys under a single insert *)

Lemma unique_insert {A B} (f : A -> B) (m : gmap string A) (k : string) (a : A) :
  (forall k1 k2 a1 a2, m !! k1 = Some a1 -> m !! k2 = Some a2 -> f a1 = f a2 -> k1 = k2) ->
  (forall k' a', m !! k' = Some a' -> f a' = f a -> k' = k) ->
  forall k1 k2 a1 a2, <[k := a]> m !! k1 = Some a1 -> <[k := a]> m !! k2 = Some a2 ->
    f a1 = f a2 -> k1 = k2.
Proof.
  intros Hu Hnew k1 k2 a1 a2 H1 H2 Hf.
  destruct (String.eq_dec k1 k) as [->|Hne1];
    destruct (String.eq_dec k2 k) as [->|Hne2]; [reflexivity| | |].
  - rewrite lookup_insert_eq in H1. rewrite lookup_insert_ne in H2 by congruence.
    injection H1 as <-. symmetry. exact (Hnew _ _ H2 (eq_sym Hf)).
  - rewrite lookup_insert_eq in H2. rewrite lookup_insert_ne in H1 by congruence.
    injection H2 as <-. exact (Hnew _ _ H1 Hf).
  - rewrite lookup_insert_ne in H1, H2 by congruence. exact (Hu _ _ _ _ H1 H2 Hf).
Qed.

Lemma loc_names_unique_pair (d : Db) :
  loc_names_unique d <->
  forall k1 k2 l1 l2, locations d !! k1 = Some l1 -> locations d !! k2 = Some l2 ->
    (l_brandId l1, nameLower l1) = (l_brandId l2, nameLower l2) -> k1 = k2.
Proof.
  split; intros H k1 k2 l1 l2 H1 H2.
  - intros Heq. injection Heq. eauto.
  - intros Hb Hn. apply (H _ _ _ _ H1 H2). congruence.
Qed.

Lemma offer_names_unique_pair (d : Db) :
  offer_names_unique d <->
  forall k1 k2 o1 o2, offers d !! k1 = Some o1 -> offers d !! k2 = Some o2 ->
    (o_brandId o1, o_name o1) = (o_brandId o2, o_name o2) -> k1 = k2.
Proof.
  split; intros H k1 k2 o1 o2 H1 H2.
  - intros Heq. injection Heq. eauto.
  - intros Hb Hn. apply (H _ _ _ _ H1 H2). congruence.
Qed.

(** ** [LocationsService.create] *)

Lemma locationsService_create_steps (toLowerCase : string -> string)
    (dto : CreateLocationDto) (newId now : string)
    (w : World) :
  locationsService_create toLowerCase dto newId now w =
  let w1 := log (GetItem "brands" (cl_brandId dto)) w in
  match brands (db w) !! cl_brandId dto with
  | None =>
      (inl (NotFoundException ("Brand with id " +:+ cl_brandId dto +:+ " not found")), w1)
  | Some _ =>
      let nl := toLowerCase (cl_name dto) in
      let w2 := log (QueryIndex "locations" "brandId-nameLower-index" (cl_brandId dto) nl) w1 in
      match head (List.filter
                    (λ l, String.eqb (l_brandId l) (cl_brandId dto)
                          && String.eqb (nameLower l) nl)
                    (map snd (map_to_list (locations (db w))))) with
      | Some _ =>
          (inl (ConflictException ("Location with name " +:+ cl_name dto
                 +:+ " already exists for this brand")), w2)
      | None =>
          let location := mkLocation newId (cl_brandId dto) (cl_name dto) nl (cl_address dto)
                            Undefined false now now in
          if has_empty_key (location_keys location)
          then (inl empty_key_error, log (PutItem "locations" newId) w2) else
          (inr location,
           log (PutItem "locations" newId)
             (set_db (mkDb (brands (db w)) (<[newId := location]> (locations (db w)))
                        (offers (db w))) w2))
      end
  end.
Proof.
  unfold locationsService_create, brandsService_findOne, brandsRepository_findById,
    locationsRepository_findByBrandIdAndNameLower, locationsRepository_put,
    mbind, M_bind, mret, M_ret, throw, log, set_db.
  cbn. destruct (brands (db w) !! cl_brandId dto); cbn; [|reflexivity].
  destruct (head _); reflexivity.
Qed.

(** [LocationsService.create] under a fresh id returns a location with
    no [offerIds] and [hasOffer = false], stores it under that id, and
    keeps the [hasOffer] and counter invariants, the referential
    integrity of [offerIds], the uniqueness of [(brandId, nameLower)] and
    [nameLower = name.toLowerCase()]; when it fails it writes nothing. *)
Theorem locationsService_create_fresh (toLowerCase : string -> string)
    (w : World) (dto : CreateLocationDto)
    (newId now : string) :
  locations (db w) !! newId = None ->
  db_inv (db w) -> loc_refs_linked (db w) -> loc_names_unique (db w) ->
  name_lower_consistent toLowerCase (db w) ->
  match locationsService_create toLowerCase dto newId now w with
  | (inr location, w') =>
      offerIds location = Undefined /\ hasOffer location = false /\
      locations (db w') !! newId = Some location /\
      db_inv (db w') /\ loc_refs_linked (db w') /\ loc_names_unique (db w') /\
      name_lower_consistent toLowerCase (db w')
  | (inl _, w') => db w' = db w
  end.
Proof.
  intros Hfresh [HOi HLi] Hrefs Huniq Hcons. rewrite locationsService_create_steps. cbv zeta.
  destruct (brands (db w) !! cl_brandId dto) as [brand|]; [|reflexivity].
  destruct (head _) as [y|] eqn:Hh; [reflexivity|].
  pose proof (λ k x Hk, head_filter_none_inv _ _ k x Hh Hk) as Hno. cbn beta in Hno.
  destruct (has_empty_key _); [reflexivity|].
  cbn. split; [reflexivity|]. split; [reflexivity|].
  split; [apply lookup_insert_eq|]. split; [|split; [|split]].
  - split; cbn; [exact HOi|]. apply map_Forall_insert_2; [reflexivity|exact HLi].
  - intros lid L x HL Hx; cbn in *.
    destruct (String.eq_dec lid newId) as [->|Hne].
    + rewrite lookup_insert_eq in HL. injection HL as <-. discriminate Hx.
    + rewrite lookup_insert_ne in HL by congruence. exact (Hrefs _ _ _ HL Hx).
  - apply loc_names_unique_pair. cbn.
    apply (unique_insert (λ l, (l_brandId l, nameLower l))).
    + apply loc_names_unique_pair, Huniq.
    + intros k' a' Hk' Heq. cbn in Heq. injection Heq as Hb Hn.
      pose proof (Hno _ _ Hk') as Hf. apply Bool.not_true_iff_false in Hf.
      exfalso. apply Hf, andb_eqb_true. split; assumption.
  - intros k l Hk; cbn in Hk.
    destruct (String.eq_dec k newId) as [->|Hne].
    + rewrite lookup_insert_eq in Hk. injection Hk as <-. reflexivity.
    + rewrite lookup_insert_ne in Hk by congruence. exact (Hcons _ _ Hk).
Qed.

Lemma sample_name_lower : name_lower_consistent latin1_toLowerCase (db sample_world).
Proof.
  intros k l Hk. cbn in Hk. apply lookup_singleton_Some in Hk as [<- <-]. reflexivity.
Qed.

Lemma locationsService_create_fresh_witness :
  let dto := mkCreateLocationDto "acme" "High St" "3 High St" in
  locations (db sample_world) !! "l2" = None /\
  match locationsService_create latin1_toLowerCase dto "l2" "t1" sample_world with
  | (inr location, w') =>
      offerIds location = Undefined /\ hasOffer location = false /\
      locations (db w') !! "l2" = Some location /\
      db_inv (db w') /\ loc_refs_linked (db w') /\ loc_names_unique (db w') /\
      name_lower_consistent latin1_toLowerCase (db w')
  | (inl _, w') => db w' = db sample_world
  end.
Proof.
  cbv zeta. split; [reflexivity|].
  apply locationsService_create_fresh;
    [reflexivity | exact sample_db_inv | exact sample_refs | exact sample_loc_names
    | exact sample_name_lower].
Defined.

(** ** [LocationsService.update] *)

Lemma locationsService_update_steps (toLowerCase : string -> string)
    (id : string) (dto : UpdateLocationDto) (now : string)
    (w : World) :
  locationsService_update toLowerCase id dto now w =
  let w1 := log (GetItem "locations" id) w in
  match locations (db w) !! id with
  | None => (inl (NotFoundException ("Location with id " +:+ id +:+ " not found")), w1)
  | Some location =>
      let nl := toLowerCase <$> truthy (ul_name dto) in
      let upd := mkLocation (l_id location) (l_brandId location)
                   (default (l_name location) (ul_name dto))
                   (default (nameLower location) nl)
                   (default (address location) (ul_address dto))
                   (offerIds location) (hasOffer location) (l_createdAt location) now in
      let put (w2 : World) :=
        if has_empty_key (location_keys upd)
        then (inl empty_key_error, log (PutItem "locations" (l_id location)) w2) else
        (inr upd, log (PutItem "locations" (l_id location))
                    (set_db (mkDb (brands (db w)) (<[l_id location := upd]> (locations (db w)))
                               (offers (db w))) w2)) in
      match nl with
      | Some n =>
          if String.eqb n (nameLower location) then put w1
          else
            let w2 := log (QueryIndex "locations" "brandId-nameLower-index"
                             (l_brandId location) n) w1 in
            match head (List.filter
                          (λ l, String.eqb (l_brandId l) (l_brandId location)
                                && String.eqb (nameLower l) n)
                          (map snd (map_to_list (locations (db w))))) with
            | Some _ =>
                (inl (ConflictException ("Location with name " +:+ default n (ul_name dto)
                       +:+ " already exists for this brand")), w2)
            | None => put w2
            end
      | None => put w1
      end
  end.
Proof.
  unfold locationsService_update, locationsService_findOne, locationsRepository_findById,
    locationsRepository_findByBrandIdAndNameLower, locationsRepository_put,
    mbind, M_bind, mret, M_ret, throw, log, set_db.
  cbn. destruct (locations (db w) !! id) as [location|]; cbn; [|reflexivity].
  destruct (truthy (ul_name dto)) as [n|]; cbn; [|reflexivity].
  destruct (String.eqb (toLowerCase n) (nameLower location)); cbn; [reflexivity|].
  destruct (head _); reflexivity.
Qed.

Lemma truthy_nonempty (n : string) : n <> EmptyString -> truthy (Some n) = Some n.
Proof.
  intros Hn. cbn. destruct (String.eqb_spec n EmptyString); [contradiction|reflexivity].
Qed.

Lemma has_empty_key_false (ks : list string) :
  has_empty_key ks = false <-> ~ In EmptyString ks.
Proof.
  unfold has_empty_key. rewrite <- Bool.not_true_iff_false, existsb_exists.
  split.
  - intros H Hin. apply H. exists EmptyString. split; [exact Hin | apply String.eqb_refl].
  - intros H (k & Hk & Heq). apply String.eqb_eq in Heq. subst k. exact (H Hk).
Qed.

Lemma has_empty_key_true (ks : list string) :
  In EmptyString ks -> has_empty_key ks = true.
Proof.
  intros Hin. destruct (has_empty_key ks) eqn:E; [reflexivity|].
  apply has_empty_key_false in E. contradiction.
Qed.

(** Renaming a location to a name whose lower-cased form is its current
    [nameLower] runs no uniqueness query: the update reads the location
    and writes it back with the new [name] and the old [nameLower].  The
    stored location's key attributes are non-empty, as DynamoDB stores
    no other item. *)
Theorem locationsService_update_same_lower_no_query (toLowerCase : string -> string)
    (w : World) (id now n : string) (dto : UpdateLocationDto) (location : Location) :
  locations (db w) !! id = Some location ->
  has_empty_key (location_keys location) = false ->
  ul_name dto = Some n -> n <> EmptyString ->
  toLowerCase n = nameLower location ->
  match locationsService_update toLowerCase id dto now w with
  | (inr res, w') =>
      l_name res = n /\ nameLower res = nameLower location /\
      locations (db w') !! l_id location = Some res /\
      calls w' = calls w ++ [GetItem "locations" id; PutItem "locations" (l_id location)]
  | (inl _, _) => False
  end.
Proof.
  intros HL Hkeys Hname Hn Hlow. rewrite locationsService_update_steps. cbv zeta.
  rewrite HL, Hname, (truthy_nonempty n Hn). cbn [fmap option_fmap option_map].
  rewrite Hlow, String.eqb_refl. cbv iota.
  rewrite (proj2 (has_empty_key_false _)).
  2:{ apply has_empty_key_false in Hkeys. unfold location_keys in *. cbn in *. tauto. }
  cbn. split; [reflexivity|]. split; [reflexivity|]. split; [apply lookup_insert_eq|].
  rewrite <- app_assoc. reflexivity.
Qed.

(** On the sample store, [l1] ("Main St") renamed to "MAIN ST". *)
Lemma locationsService_update_same_lower_no_query_witness :
  let dto := mkUpdateLocationDto (Some "MAIN ST") None in
  locations (db sample_world) !! "l1" = Some loc1 /\
  match locationsService_update latin1_toLowerCase "l1" dto "t1" sample_world with
  | (inr res, w') =>
      l_name res = "MAIN ST" /\ nameLower res = nameLower loc1 /\
      locations (db w') !! l_id loc1 = Some res /\
      calls w' = calls sample_world ++ [GetItem "locations" "l1"; PutItem "locations" (l_id loc1)]
  | (inl _, _) => False
  end.
Proof.
  cbv zeta. split; [reflexivity|].
  apply (locationsService_update_same_lower_no_query latin1_toLowerCase sample_world "l1" "t1"
           "MAIN ST"); [reflexivity | reflexivity | reflexivity | discriminate | reflexivity].
Defined.

(** Renaming a location to a name that, lower-cased, is the
    [nameLower] of a location of the same brand, and differs from its
    own, fails with Conflict and writes nothing. *)
Theorem locationsService_update_conflict (toLowerCase : string -> string)
    (w : World) (id now n k : string)
    (dto : UpdateLocationDto) (location other : Location) :
  locations (db w) !! id = Some location ->
  ul_name dto = Some n -> n <> EmptyString ->
  toLowerCase n <> nameLower location ->
  locations (db w) !! k = Some other ->
  l_brandId other = l_brandId location ->
  nameLower other = toLowerCase n ->
  (exists msg, fst (locationsService_update toLowerCase id dto now w)
    = inl (ConflictException msg)) /\
  db (snd (locationsService_update toLowerCase id dto now w)) = db w /\
  Forall (λ c, is_write c = false)
    (drop (length (calls w)) (calls (snd (locationsService_update toLowerCase id dto now w)))).
Proof.
  intros HL Hname Hn Hlow HK Hb Hnl. rewrite locationsService_update_steps. cbv zeta.
  rewrite HL, Hname, (truthy_nonempty n Hn). cbn [fmap option_fmap option_map].
  destruct (String.eqb_spec (toLowerCase n) (nameLower location)) as [|_]; [contradiction|].
  destruct (head_filter_found
              (λ l, String.eqb (l_brandId l) (l_brandId location)
                    && String.eqb (nameLower l) (toLowerCase n)) _ _ _ HK) as [y ->].
  { apply andb_eqb_true. split; assumption. }
  split; [eexists; reflexivity|]. split; [reflexivity|].
  cbn. rewrite <- app_assoc, drop_app_length. repeat constructor.
Qed.

Lemma locationsService_update_conflict_witness :
  let dto := mkUpdateLocationDto (Some "HIGH st") None in
  locations (db sample_world2) !! "l1" = Some loc1 /\
  locations (db sample_world2) !! "l2" = Some loc2 /\
  (exists msg, fst (locationsService_update latin1_toLowerCase "l1" dto "t1" sample_world2)
                 = inl (ConflictException msg)) /\
  db (snd (locationsService_update latin1_toLowerCase "l1" dto "t1" sample_world2))
    = db sample_world2 /\
  Forall (λ c, is_write c = false)
    (drop (length (calls sample_world2))
       (calls (snd (locationsService_update latin1_toLowerCase "l1" dto "t1" sample_world2)))).
Proof.
  cbv zeta. split; [reflexivity|]. split; [reflexivity|].
  apply (locationsService_update_conflict latin1_toLowerCase sample_world2 "l1" "t1" "HIGH st" "l2"
           _ loc1 loc2);
    try reflexivity; discriminate.
Defined.

Lemma loc_put_keeps (d : Db) (id : string) (location upd : Location) :
  locations d !! id = Some location -> keys_are_ids d ->
  l_id upd = id -> offerIds upd = offerIds location -> hasOffer upd = hasOffer location ->
  db_inv d -> loc_refs_linked d -> loc_names_unique d ->
  (forall k' a', locations d !! k' = Some a' ->
     (l_brandId a', nameLower a') = (l_brandId upd, nameLower upd) -> k' = id) ->
  db_inv (mkDb (brands d) (<[id := upd]> (locations d)) (offers d)) /\
  loc_refs_linked (mkDb (brands d) (<[id := upd]> (locations d)) (offers d)) /\
  loc_names_unique (mkDb (brands d) (<[id := upd]> (locations d)) (offers d)) /\
  keys_are_ids (mkDb (brands d) (<[id := upd]> (locations d)) (offers d)).
Proof.
  intros HL (HkB & HkL & HkO) Hid Hoi Hho [HOi HLi] Hrefs Huniq Hside.
  split; [|split; [|split]].
  - split; cbn; [exact HOi|]. apply map_Forall_insert_2; [|exact HLi].
    unfold loc_inv. rewrite Hoi, Hho. exact (HLi _ _ HL).
  - intros lid L x HL' Hx; cbn in *.
    destruct (String.eq_dec lid id) as [->|Hne].
    + rewrite lookup_insert_eq in HL'. injection HL' as <-. rewrite Hoi in Hx.
      exact (Hrefs _ _ _ HL Hx).
    + rewrite lookup_insert_ne in HL' by congruence. exact (Hrefs _ _ _ HL' Hx).
  - apply loc_names_unique_pair. cbn.
    apply (unique_insert (λ l, (l_brandId l, nameLower l))); [|exact Hside].
    apply loc_names_unique_pair, Huniq.
  - split; [exact HkB|]. split; [|exact HkO]. cbn. intros k l Hk.
    destruct (String.eq_dec k id) as [->|Hne].
    + rewrite lookup_insert_eq in Hk. injection Hk as <-. exact Hid.
    + rewrite lookup_insert_ne in Hk by congruence. exact (HkL _ _ Hk).
Qed.

(** [LocationsService.update] keeps the [hasOffer] and counter
    invariants, the referential integrity of [offerIds], the uniqueness
    of [(brandId, nameLower)], the storage of each record under its id
    and [nameLower = toLowerCase name] (an update to the empty name is
    refused by the store and writes nothing). *)
Theorem locationsService_update_keeps_invariants (toLowerCase : string -> string)
    (w : World) (id now : string) (dto : UpdateLocationDto) :
  keys_are_ids (db w) -> db_inv (db w) -> loc_refs_linked (db w) ->
  loc_names_unique (db w) ->
  let d' := db (snd (locationsService_update toLowerCase id dto now w)) in
  db_inv d' /\ loc_refs_linked d' /\ loc_names_unique d' /\ keys_are_ids d' /\
  (name_lower_consistent toLowerCase (db w) -> name_lower_consistent toLowerCase d').
Proof.
  intros Hkeys Hinv Hrefs Huniq. cbv zeta. rewrite locationsService_update_steps. cbv zeta.
  destruct (locations (db w) !! id) as [location|] eqn:HL; cbn [snd db log];
    [|exact (conj Hinv (conj Hrefs (conj Huniq (conj Hkeys (λ H, H)))))].
  pose proof (proj1 (proj2 Hkeys) _ _ HL) as Hid.
  assert (Hcons :
     has_empty_key (location_keys
       (mkLocation (l_id location) (l_brandId location)
          (default (l_name location) (ul_name dto))
          (default (nameLower location) (toLowerCase <$> truthy (ul_name dto)))
          (default (address location) (ul_address dto))
          (offerIds location) (hasOffer location) (l_createdAt location) now)) = false ->
     name_lower_consistent toLowerCase (db w) ->
     name_lower_consistent toLowerCase
       (mkDb (brands (db w))
          (<[l_id location := mkLocation (l_id location) (l_brandId location)
              (default (l_name location) (ul_name dto))
              (default (nameLower location) (toLowerCase <$> truthy (ul_name dto)))
              (default (address location) (ul_address dto))
              (offerIds location) (hasOffer location) (l_createdAt location) now]>
             (locations (db w))) (offers (db w)))).
  { intros Hk Hc k l Hk'; cbn in Hk'.
    destruct (String.eq_dec k (l_id location)) as [->|Hne].
    - rewrite lookup_insert_eq in Hk'. injection Hk' as <-. cbn.
      apply has_empty_key_false in Hk. unfold location_keys in Hk.
      destruct (ul_name dto) as [n|]; cbn in Hk |- *; [|exact (Hc _ _ HL)].
      destruct (String.eqb_spec n EmptyString) as [Hn|_]; [|reflexivity].
      exfalso. apply Hk. right; right; left; exact Hn.
    - rewrite lookup_insert_ne in Hk' by congruence. exact (Hc _ _ Hk'). }
  destruct (toLowerCase <$> truthy (ul_name dto)) as [n|] eqn:Hnl.
  - destruct (String.eqb_spec n (nameLower location)) as [Heq|Hne].
    + destruct (has_empty_key _) eqn:Hk; cbn [snd db log set_db];
        [exact (conj Hinv (conj Hrefs (conj Huniq (conj Hkeys (λ H, H)))))|].
      specialize (Hcons eq_refl). rewrite Hid in Hcons |- *.
      refine (conj _ (conj _ (conj _ (conj _ Hcons)))); apply (loc_put_keeps _ _ location);
        try assumption; try reflexivity;
        intros k' a' Hk' Hp; apply (Huniq _ _ _ _ Hk' HL); cbn in Hp; congruence.
    + destruct (head _) as [y|] eqn:Hh; cbn [snd db log set_db].
      { exact (conj Hinv (conj Hrefs (conj Huniq (conj Hkeys (λ H, H))))). }
      pose proof (λ k x Hk, head_filter_none_inv _ _ k x Hh Hk) as Hno. cbn beta in Hno.
      destruct (has_empty_key _) eqn:Hk; cbn [snd db log set_db];
        [exact (conj Hinv (conj Hrefs (conj Huniq (conj Hkeys (λ H, H)))))|].
      specialize (Hcons eq_refl). rewrite Hid in Hcons |- *.
      refine (conj _ (conj _ (conj _ (conj _ Hcons)))); apply (loc_put_keeps _ _ location);
        try assumption; try reflexivity;
        intros k' a' Hk' Hp; cbn in Hp; injection Hp as Hb Hn;
        pose proof (Hno _ _ Hk') as Hf; apply Bool.not_true_iff_false in Hf;
        exfalso; apply Hf, andb_eqb_true; split; assumption.
  - destruct (has_empty_key _) eqn:Hk; cbn [snd db log set_db];
      [exact (conj Hinv (conj Hrefs (conj Huniq (conj Hkeys (λ H, H)))))|].
    specialize (Hcons eq_refl). rewrite Hid in Hcons |- *.
    refine (conj _ (conj _ (conj _ (conj _ Hcons)))); apply (loc_put_keeps _ _ location);
      try assumption; try reflexivity;
      intros k' a' Hk' Hp; apply (Huniq _ _ _ _ Hk' HL); cbn in Hp; congruence.
Qed.

(** ** The second sample store satisfies the store invariants *)

Lemma sample2_keys : keys_are_ids (db sample_world2).
Proof.
  split; [|split]; cbn; intros k r Hk; sample_lookup Hk; reflexivity.
Qed.

Lemma sample2_db_inv : db_inv (db sample_world2).
Proof.
  split; cbn; intros k r Hk; sample_lookup Hk; reflexivity.
Qed.

Lemma sample2_refs : loc_refs_linked (db sample_world2).
Proof.
  intros lid L x HL Hx. cbn in HL. sample_lookup HL; discriminate Hx.
Qed.

Lemma sample2_loc_names : loc_names_unique (db sample_world2).
Proof.
  intros k1 k2 l1 l2 H1 H2 _ Hn. cbn in H1, H2.
  sample_lookup H1; sample_lookup H2; first [reflexivity | discriminate Hn].
Qed.

Lemma sample2_offer_names : offer_names_unique (db sample_world2).
Proof.
  intros k1 k2 o1 o2 H1 H2 _ Hn. cbn in H1, H2.
  sample_lookup H1; sample_lookup H2; first [reflexivity | discriminate Hn].
Qed.

Lemma sample2_name_lower : name_lower_consistent latin1_toLowerCase (db sample_world2).
Proof.
  intros k l Hk. cbn in Hk. sample_lookup Hk; reflexivity.
Qed.

Lemma locationsService_update_keeps_invariants_witness :
  let d' := db (snd (locationsService_update latin1_toLowerCase "l1"
                       (mkUpdateLocationDto (Some "Station Rd") None) "t1" sample_world2)) in
  db_inv d' /\ loc_refs_linked d' /\ loc_names_unique d' /\ keys_are_ids d' /\
  (name_lower_consistent latin1_toLowerCase (db sample_world2) ->
   name_lower_consistent latin1_toLowerCase d').
Proof.
  apply locationsService_update_keeps_invariants;
    [exact sample2_keys | exact sample2_db_inv | exact sample2_refs | exact sample2_loc_names].
Defined.

(** [LocationsService.update] with [name: ""] (which [UpdateLocationDto]
    admits: [@IsString() @IsOptional()]) runs no uniqueness query and
    sends a PutItem whose [name] is the empty string; [name] is the range
    key of the [brandId-name-index] of the locations table, so the store
    refuses the item with a ValidationException and nothing is written. *)
Theorem locationsService_update_empty_name_rejected (toLowerCase : string -> string)
    (w : World) (id now : string) (dto : UpdateLocationDto) (location : Location) :
  locations (db w) !! id = Some location ->
  ul_name dto = Some EmptyString ->
  locationsService_update toLowerCase id dto now w =
    (inl empty_key_error,
     mkWorld (db w) (calls w ++ [GetItem "locations" id; PutItem "locations" (l_id location)])).
Proof.
  intros HL Hname. rewrite locationsService_update_steps. cbv zeta.
  rewrite HL, Hname. cbn.
  rewrite has_empty_key_true by (cbn; right; right; left; reflexivity).
  unfold log. cbn. rewrite <- app_assoc. reflexivity.
Qed.

Lemma locationsService_update_empty_name_rejected_witness :
  locations (db sample_world) !! "l1" = Some loc1 /\
  locationsService_update latin1_toLowerCase "l1" (mkUpdateLocationDto (Some EmptyString) None)
    "t1" sample_world =
    (inl empty_key_error,
     mkWorld (db sample_world)
       (calls sample_world ++ [GetItem "locations" "l1"; PutItem "locations" (l_id loc1)])).
Proof.
  split; [reflexivity|].
  apply locationsService_update_empty_name_rejected; reflexivity.
Defined.

(** ** [OffersService.update] *)

Lemma offersService_update_steps (id : string) (dto : UpdateOfferDto) (now : string)
    (w : World) :
  offersService_update id dto now w =
  let w1 := log (GetItem "offers" id) w in
  match offers (db w) !! id with
  | None => (inl (NotFoundException ("Offer with id " +:+ id +:+ " not found")), w1)
  | Some offer =>
      let upd := mkOffer (o_id offer) (default (o_name offer) (uo_name dto)) (o_brandId offer)
                   (default (description offer) (uo_description dto))
                   (locationIds offer) (locationsTotal offer) (o_createdAt offer) now in
      let put (w2 : World) :=
        if has_empty_key (offer_keys upd)
        then (inl empty_key_error, log (PutItem "offers" (o_id offer)) w2) else
        (inr upd, log (PutItem "offers" (o_id offer))
                    (set_db (mkDb (brands (db w)) (locations (db w))
                               (<[o_id offer := upd]> (offers (db w)))) w2)) in
      match truthy (uo_name dto) with
      | Some n =>
          if String.eqb n (o_name offer) then put w1
          else
            let w2 := log (QueryIndex "offers" "brandId-name-index" (o_brandId offer) n) w1 in
            match head (List.filter
                          (λ o, String.eqb (o_brandId o) (o_brandId offer)
                                && String.eqb (o_name o) n)
                          (map snd (map_to_list (offers (db w))))) with
            | Some _ =>
                (inl (ConflictException ("Offer with name " +:+ n
                       +:+ " already exists for this brand")), w2)
            | None => put w2
            end
      | None => put w1
      end
  end.
Proof.
  unfold offersService_update, offersService_findOne, offersRepository_findById,
    offersRepository_findByBrandIdAndName, offersRepository_put,
    mbind, M_bind, mret, M_ret, throw, log, set_db.
  cbn. destruct (offers (db w) !! id) as [offer|]; cbn; [|reflexivity].
  destruct (truthy (uo_name dto)) as [n|]; cbn; [|reflexivity].
  destruct (String.eqb n (o_name offer)); cbn; [reflexivity|].
  destruct (head _); reflexivity.
Qed.

(** Renaming an offer to the name of another offer of the same brand
    fails with Conflict and writes nothing. *)
Theorem offersService_update_conflict (w : World) (id now n k : string)
    (dto : UpdateOfferDto) (offer other : Offer) :
  offers (db w) !! id = Some offer ->
  uo_name dto = Some n -> n <> EmptyString -> n <> o_name offer ->
  offers (db w) !! k = Some other ->
  o_brandId other = o_brandId offer -> o_name other = n ->
  (exists msg, fst (offersService_update id dto now w) = inl (ConflictException msg)) /\
  db (snd (offersService_update id dto now w)) = db w /\
  Forall (λ c, is_write c = false)
    (drop (length (calls w)) (calls (snd (offersService_update id dto now w)))).
Proof.
  intros HO Hname Hn Hdiff HK Hb Hnm. rewrite offersService_update_steps. cbv zeta.
  rewrite HO, Hname, (truthy_nonempty n Hn).
  destruct (String.eqb_spec n (o_name offer)) as [|_]; [contradiction|].
  destruct (head_filter_found
              (λ o, String.eqb (o_brandId o) (o_brandId offer)
                    && String.eqb (o_name o) n) _ _ _ HK) as [y ->].
  { apply andb_eqb_true. split; assumption. }
  split; [eexists; reflexivity|]. split; [reflexivity|].
  cbn. rewrite <- app_assoc, drop_app_length. repeat constructor.
Qed.

Lemma offersService_update_conflict_witness :
  let dto := mkUpdateOfferDto (Some "Half Price") None in
  offers (db sample_world2) !! "o1" = Some offer1 /\
  offers (db sample_world2) !! "o2" = Some offer2 /\
  (exists msg, fst (offersService_update "o1" dto "t1" sample_world2)
                 = inl (ConflictException msg)) /\
  db (snd (offersService_update "o1" dto "t1" sample_world2)) = db sample_world2 /\
  Forall (λ c, is_write c = false)
    (drop (length (calls sample_world2))
       (calls (snd (offersService_update "o1" dto "t1" sample_world2)))).
Proof.
  cbv zeta. split; [reflexivity|]. split; [reflexivity|].
  apply (offersService_update_conflict sample_world2 "o1" "t1" "Half Price" "o2" _ offer1 offer2);
    try reflexivity; discriminate.
Defined.

(** [OffersService.update] keeps the uniqueness of [(brandId, name)]
    among stored offers (an update to the empty name is refused by the
    store and writes nothing). *)
Theorem offersService_update_keeps_names_unique (w : World) (id now : string)
    (dto : UpdateOfferDto) :
  keys_are_ids (db w) -> offer_names_unique (db w) ->
  offer_names_unique (db (snd (offersService_update id dto now w))).
Proof.
  intros Hkeys Huniq. rewrite offersService_update_steps. cbv zeta.
  destruct (offers (db w) !! id) as [offer|] eqn:HO; [|exact Huniq].
  pose proof (proj2 (proj2 Hkeys) _ _ HO) as Hid.
  assert (Hold : forall k' a', offers (db w) !! k' = Some a' ->
            (o_brandId a', o_name a') = (o_brandId offer, o_name offer) -> k' = id).
  { intros k' a' Hk' Hp. injection Hp as Hb Hn. exact (Huniq _ _ _ _ Hk' HO Hb Hn). }
  destruct (uo_name dto) as [n|] eqn:Hname.
  - destruct (String.eqb_spec n EmptyString) as [->|Hn].
    + cbn [truthy default]. rewrite String.eqb_refl.
      rewrite has_empty_key_true by (cbn; right; right; left; reflexivity).
      exact Huniq.
    + rewrite (truthy_nonempty n Hn).
      destruct (String.eqb_spec n (o_name offer)) as [->|Hdiff].
      * destruct (has_empty_key _); cbn [snd db log set_db]; [exact Huniq|].
        rewrite Hid. apply offer_names_unique_pair.
        apply (unique_insert (λ o, (o_brandId o, o_name o)));
          [apply offer_names_unique_pair, Huniq | exact Hold].
      * destruct (head _) as [y|] eqn:Hh; cbn [snd db log set_db]; [exact Huniq|].
        pose proof (λ k x Hk, head_filter_none_inv _ _ k x Hh Hk) as Hno. cbn beta in Hno.
        destruct (has_empty_key _); cbn [snd db log set_db]; [exact Huniq|].
        rewrite Hid. apply offer_names_unique_pair.
        apply (unique_insert (λ o, (o_brandId o, o_name o)));
          [apply offer_names_unique_pair, Huniq|].
        intros k' a' Hk' Hp. cbn in Hp. injection Hp as Hb Hnm.
        pose proof (Hno _ _ Hk') as Hf. apply Bool.not_true_iff_false in Hf.
        exfalso. apply Hf, andb_eqb_true. split; assumption.
  - cbn [truthy]. destruct (has_empty_key _); cbn [snd db log set_db]; [exact Huniq|].
    rewrite Hid. apply offer_names_unique_pair.
    apply (unique_insert (λ o, (o_brandId o, o_name o)));
      [apply offer_names_unique_pair, Huniq | exact Hold].
Qed.

Lemma offersService_update_keeps_names_unique_witness :
  offer_names_unique
    (db (snd (offersService_update "o1" (mkUpdateOfferDto (Some "Big Deal") None) "t1"
                sample_world2))).
Proof.
  apply offersService_update_keeps_names_unique;
    [exact sample2_keys | exact sample2_offer_names].
Defined.

(** [OffersService.update] with [name: ""] ([UpdateOfferDto] admits it:
    [@IsString() @IsOptional()]) skips the uniqueness query and sends a
    PutItem whose [name] is the empty string; [name] is the range key of
    the [brandId-name-index] of the offers table, so the store refuses the
    item with a ValidationException and nothing is written. *)
Theorem offersService_update_empty_name_rejected (w : World) (id now : string)
    (dto : UpdateOfferDto) (offer : Offer) :
  offers (db w) !! id = Some offer ->
  uo_name dto = Some EmptyString ->
  offersService_update id dto now w =
    (inl empty_key_error,
     mkWorld (db w) (calls w ++ [GetItem "offers" id; PutItem "offers" (o_id offer)])).
Proof.
  intros HO Hname. rewrite offersService_update_steps. cbv zeta.
  rewrite HO, Hname. cbn.
  rewrite has_empty_key_true by (cbn; right; right; left; reflexivity).
  unfold log. cbn. rewrite <- app_assoc. reflexivity.
Qed.

Lemma offersService_update_empty_name_rejected_witness :
  offers (db sample_world2) !! "o1" = Some offer1 /\
  offersService_update "o1" (mkUpdateOfferDto (Some EmptyString) None) "t1" sample_world2 =
    (inl empty_key_error,
     mkWorld (db sample_world2)
       (calls sample_world2 ++ [GetItem "offers" "o1"; PutItem "offers" (o_id offer1)])).
Proof.
  split; [reflexivity|].
  apply offersService_update_empty_name_rejected; reflexivity.
Defined.

(** ** [remove] of the three services *)

(** [remove] of an id that is not stored fails with NotFound after the
    one read, in each of the three services. *)
Theorem remove_unknown_id_not_found (w : World) (offerId locationId brandId : string) :
  offers (db w) !! offerId = None ->
  locations (db w) !! locationId = None ->
  brands (db w) !! brandId = None ->
  offersService_remove offerId w =
    (inl (NotFoundException ("Offer with id " +:+ offerId +:+ " not found")),
     log (GetItem "offers" offerId) w) /\
  locationsService_remove locationId w =
    (inl (NotFoundException ("Location with id " +:+ locationId +:+ " not found")),
     log (GetItem "locations" locationId) w) /\
  brandsService_remove brandId w =
    (inl (NotFoundException ("Brand with id " +:+ brandId +:+ " not found")),
     log (GetItem "brands" brandId) w).
Proof.
  intros HO HL HB.
  unfold offersService_remove, locationsService_remove, brandsService_remove,
    offersService_findOne, locationsService_findOne, brandsService_findOne,
    offersRepository_findById, locationsRepository_findById, brandsRepository_findById,
    mbind, M_bind, mret, M_ret, throw.
  cbn. rewrite HO, HL, HB. split; [|split]; reflexivity.
Qed.

Lemma remove_unknown_id_not_found_witness :
  offersService_remove "o9" sample_world =
    (inl (NotFoundException ("Offer with id " +:+ "o9" +:+ " not found")),
     log (GetItem "offers" "o9") sample_world) /\
  locationsService_remove "l9" sample_world =
    (inl (NotFoundException ("Location with id " +:+ "l9" +:+ " not found")),
     log (GetItem "locations" "l9") sample_world) /\
  brandsService_remove "b9" sample_world =
    (inl (NotFoundException ("Brand with id " +:+ "b9" +:+ " not found")),
     log (GetItem "brands" "b9") sample_world).
Proof.
  apply remove_unknown_id_not_found; reflexivity.
Defined.

(** [BrandsService.remove] deletes only the brand: the locations and
    offers tables are left as they were, so every location and offer of
    that brand stays stored with a [brandId] naming no brand. *)
Theorem brandsService_remove_no_cascade (w : World) (id : string) (brand : Brand) :
  brands (db w) !! id = Some brand ->
  fst (brandsService_remove id w) = inr tt /\
  brands (db (snd (brandsService_remove id w))) !! id = None /\
  locations (db (snd (brandsService_remove id w))) = locations (db w) /\
  offers (db (snd (brandsService_remove id w))) = offers (db w) /\
  (forall k location, locations (db w) !! k = Some location -> l_brandId location = id ->
     locations (db (snd (brandsService_remove id w))) !! k = Some location /\
     brands (db (snd (brandsService_remove id w))) !! l_brandId location = None) /\
  (forall k offer, offers (db w) !! k = Some offer -> o_brandId offer = id ->
     offers (db (snd (brandsService_remove id w))) !! k = Some offer /\
     brands (db (snd (brandsService_remove id w))) !! o_brandId offer = None).
Proof.
  intros HB.
  unfold brandsService_remove, brandsService_findOne, brandsRepository_findById,
    brandsRepository_delete, mbind, M_bind, mret, M_ret, throw, log, set_db.
  cbn. rewrite HB. cbn.
  split; [reflexivity|]. split; [apply lookup_delete_eq|].
  split; [reflexivity|]. split; [reflexivity|].
  split; intros k r Hk Hb; (split; [exact Hk|]); rewrite Hb; apply lookup_delete_eq.
Qed.

Lemma brandsService_remove_no_cascade_witness :
  fst (brandsService_remove "acme" sample_world) = inr tt /\
  brands (db (snd (brandsService_remove "acme" sample_world))) !! "acme" = None /\
  locations (db (snd (brandsService_remove "acme" sample_world)))
    = locations (db sample_world) /\
  offers (db (snd (brandsService_remove "acme" sample_world))) = offers (db sample_world) /\
  (forall k location, locations (db sample_world) !! k = Some location ->
     l_brandId location = "acme" ->
     locations (db (snd (brandsService_remove "acme" sample_world))) !! k = Some location /\
     brands (db (snd (brandsService_remove "acme" sample_world))) !! l_brandId location = None) /\
  (forall k offer, offers (db sample_world) !! k = Some offer -> o_brandId offer = "acme" ->
     offers (db (snd (brandsService_remove "acme" sample_world))) !! k = Some offer /\
     brands (db (snd (brandsService_remove "acme" sample_world))) !! o_brandId offer = None).
Proof.
  apply (brandsService_remove_no_cascade sample_world "acme" acme). reflexivity.
Defined.

(** ** [BrandsService.create] and [BrandsService.update] *)

Lemma brandsService_create_steps (toLowerCase : string -> string) (dto : CreateBrandDto)
    (newId now : string) (w : World) :
  brandsService_create toLowerCase dto newId now w =
  let nl := toLowerCase (cb_name dto) in
  let w1 := log (QueryIndex "brands" "nameLower-index" nl EmptyString) w in
  match head (List.filter (λ b, String.eqb (b_nameLower b) nl)
                (map snd (map_to_list (brands (db w))))) with
  | Some _ =>
      (inl (ConflictException ("Brand with name " +:+ cb_name dto +:+ " already exists")), w1)
  | None =>
      let brand := mkBrand newId (cb_name dto) nl (cb_description dto) now now in
      if has_empty_key (brand_keys brand)
      then (inl empty_key_error, log (PutItem "brands" newId) w1) else
      (inr brand,
       log (PutItem "brands" newId)
         (set_db (mkDb (<[newId := brand]> (brands (db w))) (locations (db w)) (offers (db w)))
            w1))
  end.
Proof.
  unfold brandsService_create, brandsRepository_findByNameLower, brandsRepository_put,
    mbind, M_bind, mret, M_ret, throw, log, set_db.
  cbn. destruct (head _); reflexivity.
Qed.

(** [BrandsService.create] rejects a name equal, up to letter case, to
    a stored brand's lower-cased name: Conflict after the index query,
    nothing written. *)
Theorem brandsService_create_conflict_ignoring_case (toLowerCase : string -> string)
    (w : World) (dto : CreateBrandDto)
    (newId now k : string) (other : Brand) :
  brands (db w) !! k = Some other ->
  b_nameLower other = toLowerCase (cb_name dto) ->
  (exists msg, fst (brandsService_create toLowerCase dto newId now w)
    = inl (ConflictException msg)) /\
  snd (brandsService_create toLowerCase dto newId now w) =
    log (QueryIndex "brands" "nameLower-index" (toLowerCase (cb_name dto)) EmptyString) w.
Proof.
  intros HB Hn. rewrite brandsService_create_steps. cbv zeta.
  destruct (head_filter_found (λ b, String.eqb (b_nameLower b) (toLowerCase (cb_name dto)))
              _ _ _ HB) as [y ->].
  { apply String.eqb_eq. exact Hn. }
  split; [eexists; reflexivity | reflexivity].
Qed.

Lemma brandsService_create_conflict_ignoring_case_witness :
  let dto := mkCreateBrandDto "CAFÉ" "Another" in
  (exists msg, fst (brandsService_create latin1_toLowerCase dto "b2" "t1" sample_world4)
                 = inl (ConflictException msg)) /\
  snd (brandsService_create latin1_toLowerCase dto "b2" "t1" sample_world4) =
    log (QueryIndex "brands" "nameLower-index" (latin1_toLowerCase (cb_name dto)) EmptyString)
      sample_world4.
Proof.
  cbv zeta.
  apply (brandsService_create_conflict_ignoring_case latin1_toLowerCase sample_world4 _
           "b2" "t1" "cafe" cafe); reflexivity.
Defined.

(** [BrandsService.create] under a fresh id stores the brand with
    [nameLower] its lower-cased name and keeps brand names unique up to
    letter case. *)
Theorem brandsService_create_fresh (toLowerCase : string -> string) (w : World)
    (dto : CreateBrandDto) (newId now : string) :
  brands (db w) !! newId = None -> brand_names_unique (db w) ->
  match brandsService_create toLowerCase dto newId now w with
  | (inr brand, w') =>
      b_nameLower brand = toLowerCase (cb_name dto) /\
      brands (db w') !! newId = Some brand /\
      brand_names_unique (db w')
  | (inl _, w') => db w' = db w
  end.
Proof.
  intros Hfresh Huniq. rewrite brandsService_create_steps. cbv zeta.
  destruct (head _) as [y|] eqn:Hh; [reflexivity|].
  pose proof (λ k x Hk, head_filter_none_inv _ _ k x Hh Hk) as Hno. cbn beta in Hno.
  destruct (has_empty_key _); [reflexivity|].
  cbn. split; [reflexivity|]. split; [apply lookup_insert_eq|].
  unfold brand_names_unique; cbn [brands].
  apply (unique_insert b_nameLower); [exact Huniq|].
  intros k' a' Hk' Hn. cbn in Hn. pose proof (Hno _ _ Hk') as Hf.
  apply String.eqb_neq in Hf. contradiction.
Qed.

Lemma brandsService_create_fresh_witness :
  brands (db sample_world) !! "b2" = None /\
  match brandsService_create latin1_toLowerCase (mkCreateBrandDto "Globex" "Tools") "b2" "t1"
          sample_world with
  | (inr brand, w') =>
      b_nameLower brand = latin1_toLowerCase (cb_name (mkCreateBrandDto "Globex" "Tools")) /\
      brands (db w') !! "b2" = Some brand /\
      brand_names_unique (db w')
  | (inl _, w') => db w' = db sample_world
  end.
Proof.
  split; [reflexivity|].
  apply brandsService_create_fresh; [reflexivity | exact sample_brand_names].
Defined.

(** [BrandsService.update] keeps brand names unique up to letter case,
    and each brand stored under its id. *)
Theorem brandsService_update_keeps_names_unique (toLowerCase : string -> string)
    (w : World) (id now : string)
    (dto : UpdateBrandDto) :
  keys_are_ids (db w) -> brand_names_unique (db w) ->
  brand_names_unique (db (snd (brandsService_update toLowerCase id dto now w))) /\
  keys_are_ids (db (snd (brandsService_update toLowerCase id dto now w))).
Proof.
  intros Hkeys Huniq.
  unfold brandsService_update, brandsService_findOne, brandsRepository_findById,
    brandsRepository_findByNameLower, brandsRepository_put,
    mbind, M_bind, mret, M_ret, throw, log, set_db.
  cbn. destruct (brands (db w) !! id) as [brand|] eqn:HB; cbn; [|split; assumption].
  pose proof (proj1 Hkeys _ _ HB) as Hid.
  destruct Hkeys as (HkB & HkL & HkO).
  assert (Hput : forall nl',
    (forall k' a', brands (db w) !! k' = Some a' -> b_nameLower a' = nl' -> k' = id) ->
    forall nm ds,
    brand_names_unique
      (mkDb (<[b_id brand := mkBrand (b_id brand) nm nl' ds (b_createdAt brand) now]>
               (brands (db w))) (locations (db w)) (offers (db w))) /\
    keys_are_ids
      (mkDb (<[b_id brand := mkBrand (b_id brand) nm nl' ds (b_createdAt brand) now]>
               (brands (db w))) (locations (db w)) (offers (db w)))).
  { intros nl' Hside nm ds. rewrite Hid. split.
    - unfold brand_names_unique; cbn [brands].
      apply (unique_insert b_nameLower); [exact Huniq | exact Hside].
    - split; [|split; assumption]. cbn. intros k b Hk.
      destruct (String.eq_dec k id) as [->|Hne].
      + rewrite lookup_insert_eq in Hk. injection Hk as <-. reflexivity.
      + rewrite lookup_insert_ne in Hk by congruence. exact (HkB _ _ Hk). }
  assert (Hsame : forall k' a', brands (db w) !! k' = Some a' ->
            b_nameLower a' = b_nameLower brand -> k' = id).
  { intros k' a' Hk' Hn. exact (Huniq _ _ _ _ Hk' HB Hn). }
  pose proof (conj Huniq (conj HkB (conj HkL HkO))) as Hold.
  destruct (truthy (ub_name dto)) as [n|]; cbn.
  2:{ destruct (has_empty_key _); cbn; [exact Hold | apply Hput, Hsame]. }
  destruct (String.eqb_spec (toLowerCase n) (b_nameLower brand)) as [Heq|Hne]; cbn.
  - destruct (has_empty_key _); cbn; [exact Hold|].
    apply Hput. rewrite Heq. exact Hsame.
  - destruct (head _) as [y|] eqn:Hh; cbn; [exact Hold|].
    destruct (has_empty_key _); cbn; [exact Hold|].
    apply Hput. intros k' a' Hk' Hn.
    pose proof (head_filter_none_inv _ _ _ _ Hh Hk') as Hf. cbn in Hf.
    apply String.eqb_neq in Hf. contradiction.
Qed.

Lemma brandsService_update_keeps_names_unique_witness :
  brand_names_unique (db (snd (brandsService_update latin1_toLowerCase "acme"
                                 (mkUpdateBrandDto (Some "Acme Corp") None) "t1" sample_world))) /\
  keys_are_ids (db (snd (brandsService_update latin1_toLowerCase "acme"
                           (mkUpdateBrandDto (Some "Acme Corp") None) "t1" sample_world))).
Proof.
  apply brandsService_update_keeps_names_unique; [exact sample_keys | exact sample_brand_names].
Defined.

(** ** Repeating a link or an unlink *)

Lemma hasItem_link_loc_self (L : Location) (offerId now : string) :
  hasItem (offerIds (link_loc L offerId now)) offerId = true.
Proof.
  unfold link_loc; cbn [offerIds]. apply hasItem_SetColl.
  destruct (offerIds L); set_solver.
Qed.

(** A second [linkToLocation] of a pair the first call linked fails on
    the in-memory check with Conflict, after the two reads and before
    any write. *)
Theorem link_twice_conflict (w : World) (offerId locationId now1 now2 : string) :
  (exists res, fst (link offerId locationId now1 w) = inr res) ->
  let w' := snd (link offerId locationId now1 w) in
  link offerId locationId now2 w' =
    (inl (ConflictException ("Offer " +:+ offerId +:+ " is already linked to this location")),
     log (GetItem "locations" locationId) (log (GetItem "offers" offerId) w')).
Proof.
  intros [res Hres]. cbv zeta.
  pose proof (link_outcome w offerId locationId now1) as Hout.
  destruct (link offerId locationId now1 w) as [[e|r] w'] eqn:Hl; cbn in Hres;
    [discriminate|]. cbn [snd].
  destruct Hout as (offer & location & HO & HL & Hb & Hh & Hdb & _).
  unfold link. rewrite linkToLocation_steps. cbv zeta. rewrite Hdb. cbn [offers locations].
  rewrite !lookup_insert_eq. cbn [l_brandId o_brandId link_loc link_offer].
  rewrite Hb, String.eqb_refl. cbn [negb].
  rewrite hasItem_link_loc_self. reflexivity.
Qed.

Lemma link_twice_conflict_witness :
  (exists res, fst (link "o1" "l1" "t1" sample_world) = inr res) /\
  let w' := snd (link "o1" "l1" "t1" sample_world) in
  link "o1" "l1" "t2" w' =
    (inl (ConflictException ("Offer " +:+ "o1" +:+ " is already linked to this location")),
     log (GetItem "locations" "l1") (log (GetItem "offers" "o1") w')).
Proof.
  assert (H : exists res, fst (link "o1" "l1" "t1" sample_world) = inr res)
    by (eexists; vm_compute; reflexivity).
  split; [exact H | exact (link_twice_conflict sample_world "o1" "l1" "t1" "t2" H)].
Defined.

(** A second [unlinkFromLocation] of a pair the first call unlinked
    fails on the in-memory check with NotFound, after the two reads and
    before any write. *)
Theorem unlink_twice_not_found (w : World) (offerId locationId now1 now2 : string) :
  (exists res, fst (unlink offerId locationId now1 w) = inr res) ->
  let w' := snd (unlink offerId locationId now1 w) in
  unlink offerId locationId now2 w' =
    (inl (NotFoundException ("Offer " +:+ offerId +:+ " is not linked to this location")),
     log (GetItem "locations" locationId) (log (GetItem "offers" offerId) w')).
Proof.
  intros [res Hres]. cbv zeta.
  pose proof (unlink_outcome w offerId locationId now1) as Hout.
  destruct (unlink offerId locationId now1 w) as [[e|r] w'] eqn:Hl; cbn in Hres;
    [discriminate|]. cbn [snd].
  destruct Hout as (offer & location & s & HO & HL & Hb & Hs & _ & _ & _ & Hdb & _).
  unfold unlink. rewrite unlinkFromLocation_steps. cbv zeta. rewrite Hdb.
  cbn [offers locations]. rewrite !lookup_insert_eq.
  cbn [l_brandId o_brandId unlink_loc unlink_offer].
  rewrite Hb, String.eqb_refl. cbn [negb].
  destruct (hasItem (offerIds (unlink_loc location offerId
               (bool_decide (s ∖ {[offerId]} ≠ ∅)) now1)) offerId) eqn:Hh.
  - exfalso. apply (hasItem_unlink_loc location s offerId now1 offerId _ Hs) in Hh.
    destruct Hh as [Hne _]. exact (Hne eq_refl).
  - reflexivity.
Qed.

Lemma unlink_twice_not_found_witness :
  let w1 := snd (link "o1" "l1" "t1" sample_world) in
  (exists res, fst (unlink "o1" "l1" "t2" w1) = inr res) /\
  let w' := snd (unlink "o1" "l1" "t2" w1) in
  unlink "o1" "l1" "t3" w' =
    (inl (NotFoundException ("Offer " +:+ "o1" +:+ " is not linked to this location")),
     log (GetItem "locations" "l1") (log (GetItem "offers" "o1") w')).
Proof.
  cbv zeta.
  assert (H : exists res, fst (unlink "o1" "l1" "t2" (snd (link "o1" "l1" "t1" sample_world)))
                            = inr res)
    by (eexists; vm_compute; reflexivity).
  split; [exact H|].
  exact (unlink_twice_not_found (snd (link "o1" "l1" "t1" sample_world)) "o1" "l1" "t2" "t3" H).
Defined.

(** ** Referential integrity of [offerIds] across all operations *)

Lemma ids_insert {A} (f : A -> string) (m : gmap string A) (k : string) (v : A) :
  (forall k' v', m !! k' = Some v' -> f v' = k') -> f v = k ->
  forall k' v', <[k := v]> m !! k' = Some v' -> f v' = k'.
Proof.
  intros H Hv k' v' Hk'. destruct (String.eq_dec k' k) as [->|Hne].
  - rewrite lookup_insert_eq in Hk'. injection Hk' as <-. exact Hv.
  - rewrite lookup_insert_ne in Hk' by congruence. exact (H _ _ Hk').
Qed.

Lemma ids_delete {A} (f : A -> string) (m : gmap string A) (k : string) :
  (forall k' v', m !! k' = Some v' -> f v' = k') ->
  forall k' v', delete k m !! k' = Some v' -> f v' = k'.
Proof.
  intros H k' v' Hk'. apply lookup_delete_Some in Hk' as [_ Hk']. exact (H _ _ Hk').
Qed.

Lemma refs_insert_offer_same_links (d : Db) (k : string) (o o' : Offer) :
  offers d !! k = Some o -> locationIds o' = locationIds o -> loc_refs_linked d ->
  loc_refs_linked (mkDb (brands d) (locations d) (<[k := o']> (offers d))).
Proof.
  intros Hk Hl Hinv lid L x HL Hx. cbn in *.
  destruct (Hinv _ _ _ HL Hx) as (O & HO & Hin).
  destruct (String.eq_dec x k) as [->|Hne].
  - rewrite lookup_insert_eq. exists o'. split; [reflexivity|].
    rewrite Hk in HO. injection HO as <-. rewrite Hl. exact Hin.
  - rewrite lookup_insert_ne by congruence. eauto.
Qed.

Lemma refs_insert_offer_fresh (d : Db) (k : string) (o' : Offer) :
  offers d !! k = None -> loc_refs_linked d ->
  loc_refs_linked (mkDb (brands d) (locations d) (<[k := o']> (offers d))).
Proof.
  intros Hk Hinv lid L x HL Hx. cbn in *.
  destruct (Hinv _ _ _ HL Hx) as (O & HO & Hin).
  destruct (String.eq_dec x k) as [->|Hne]; [congruence|].
  rewrite lookup_insert_ne by congruence. eauto.
Qed.

Lemma refs_insert_loc_same_links (d : Db) (k : string) (l l' : Location) :
  locations d !! k = Some l -> offerIds l' = offerIds l -> loc_refs_linked d ->
  loc_refs_linked (mkDb (brands d) (<[k := l']> (locations d)) (offers d)).
Proof.
  intros Hk Hl Hinv lid L x HL Hx. cbn in *.
  destruct (String.eq_dec lid k) as [->|Hne].
  - rewrite lookup_insert_eq in HL. injection HL as <-. rewrite Hl in Hx.
    exact (Hinv _ _ _ Hk Hx).
  - rewrite lookup_insert_ne in HL by congruence. exact (Hinv _ _ _ HL Hx).
Qed.

Lemma refs_insert_loc_unlinked (d : Db) (k : string) (l' : Location) :
  offerIds l' = Undefined -> loc_refs_linked d ->
  loc_refs_linked (mkDb (brands d) (<[k := l']> (locations d)) (offers d)).
Proof.
  intros Hl Hinv lid L x HL Hx. cbn in *.
  destruct (String.eq_dec lid k) as [->|Hne].
  - rewrite lookup_insert_eq in HL. injection HL as <-. rewrite Hl in Hx. discriminate Hx.
  - rewrite lookup_insert_ne in HL by congruence. exact (Hinv _ _ _ HL Hx).
Qed.

Lemma refs_delete_loc (d : Db) (k : string) :
  loc_refs_linked d ->
  loc_refs_linked (mkDb (brands d) (delete k (locations d)) (offers d)).
Proof.
  intros Hinv lid L x HL Hx. cbn in *.
  apply lookup_delete_Some in HL as [_ HL]. exact (Hinv _ _ _ HL Hx).
Qed.

Lemma brandsService_update_db (toLowerCase : string -> string) (w : World) (id now : string)
    (dto : UpdateBrandDto) :
  db (snd (brandsService_update toLowerCase id dto now w)) = db w \/
  exists brand b',
    brands (db w) !! id = Some brand /\
    db (snd (brandsService_update toLowerCase id dto now w)) =
      mkDb (<[b_id brand := b']> (brands (db w))) (locations (db w)) (offers (db w)) /\
    b_id b' = b_id brand.
Proof.
  unfold brandsService_update, brandsService_findOne, brandsRepository_findById,
    brandsRepository_findByNameLower, brandsRepository_put,
    mbind, M_bind, mret, M_ret, throw, log, set_db.
  cbn. destruct (brands (db w) !! id) as [brand|] eqn:HB; cbn; [|left; reflexivity].
  destruct (truthy (ub_name dto)) as [n|]; cbn;
    [destruct (String.eqb (toLowerCase n) (b_nameLower brand)); cbn;
     [|destruct (head _); cbn] |].
  all: try destruct (has_empty_key _);
    first [left; reflexivity | right; do 2 eexists; split; [reflexivity|split; reflexivity]].
Qed.

(** C7 (amended).  Given records stored under their ids and fresh
    [randomUUID()] ids for the creates, every operation other than
    [OffersService.remove] -- link, unlink, the offers' create and update,
    the locations' create, update and remove, the brands' create, update
    and remove -- keeps every id of every location's [offerIds] the id of
    a stored offer linked to that location (and keeps the records stored
    under their ids).  [OffersService.remove] breaks the property on
    every store where it holds and some location lists the removed offer:
    the call succeeds, deletes only the offer record and leaves its id in
    that location's [offerIds]. *)
Theorem offerIds_linked_except_offer_remove (toLowerCase : string -> string) :
  (forall (op : SysOp) (w : World),
     (forall id, op <> OpOfferRemove id) -> new_id_fresh (db w) op ->
     keys_are_ids (db w) -> loc_refs_linked (db w) ->
     loc_refs_linked (db (run_sys toLowerCase op w)) /\
     keys_are_ids (db (run_sys toLowerCase op w))) /\
  (forall (w : World) (offerId locationId : string) (offer : Offer) (location : Location),
     offers (db w) !! offerId = Some offer ->
     locations (db w) !! locationId = Some location ->
     hasItem (offerIds location) offerId = true ->
     fst (offersService_remove offerId w) = inr tt /\
     offers (db (run_sys toLowerCase (OpOfferRemove offerId) w)) !! offerId = None /\
     locations (db (run_sys toLowerCase (OpOfferRemove offerId) w)) !! locationId
       = Some location /\
     ~ loc_refs_linked (db (run_sys toLowerCase (OpOfferRemove offerId) w))).
Proof.
  split.
  - intros op w Hnot Hfresh Hkeys Hrefs.
    pose proof Hkeys as (HkB & HkL & HkO).
    destruct op as [dto newId now|id dto now|id|offerId locationId now|offerId locationId now
                   |dto newId now|id dto now|id|dto newId now|id dto now|id];
      cbn [run_sys new_id_fresh] in *.
    + rewrite offersService_create_steps. cbv zeta.
      destruct (brands (db w) !! co_brandId dto); cbn [snd db log]; [|split; assumption].
      destruct (head _); cbn [snd db log]; [split; assumption|].
      destruct (has_empty_key _); cbn [snd db log set_db]; [split; assumption|].
      split; [apply refs_insert_offer_fresh; assumption|].
      split; [exact HkB|split; [exact HkL|]]. cbn [offers].
      apply ids_insert; [exact HkO | reflexivity].
    + destruct (offersService_update_db w id now dto) as [->|(offer & HO & ->)];
        [split; assumption|].
      pose proof (HkO _ _ HO) as Hid.
      split.
      * apply (refs_insert_offer_same_links _ _ offer); [rewrite Hid; exact HO|reflexivity|].
        exact Hrefs.
      * split; [exact HkB|split; [exact HkL|]]. cbn [offers].
        apply ids_insert; [exact HkO | reflexivity].
    + exfalso. exact (Hnot id eq_refl).
    + split; [apply link_preserves_refs; exact Hrefs|].
      pose proof (link_outcome w offerId locationId now) as H.
      destruct (link offerId locationId now w) as [[e|res] w']; cbn [snd].
      { rewrite H. exact Hkeys. }
      destruct H as (offer & location & HO & HL & _ & _ & Hdb & _).
      rewrite Hdb. split; [exact HkB|split]; cbn [locations offers].
      * apply ids_insert; [exact HkL|]. exact (HkL _ _ HL).
      * apply ids_insert; [exact HkO|]. exact (HkO _ _ HO).
    + split; [apply unlink_preserves_refs; exact Hrefs|].
      pose proof (unlink_outcome w offerId locationId now) as H.
      destruct (unlink offerId locationId now w) as [[e|res] w']; cbn [snd].
      { rewrite H. exact Hkeys. }
      destruct H as (offer & location & s & HO & HL & _ & _ & _ & _ & _ & Hdb & _).
      rewrite Hdb. split; [exact HkB|split]; cbn [locations offers].
      * apply ids_insert; [exact HkL|]. exact (HkL _ _ HL).
      * apply ids_insert; [exact HkO|]. exact (HkO _ _ HO).
    + rewrite locationsService_create_steps. cbv zeta.
      destruct (brands (db w) !! cl_brandId dto); cbn [snd db log]; [|split; assumption].
      destruct (head _); cbn [snd db log]; [split; assumption|].
      destruct (has_empty_key _); cbn [snd db log set_db]; [split; assumption|].
      split; [apply refs_insert_loc_unlinked; [reflexivity | exact Hrefs]|].
      split; [exact HkB|split; [|exact HkO]]. cbn [locations].
      apply ids_insert; [exact HkL | reflexivity].
    + destruct (locationsService_update_db toLowerCase w id now dto)
        as [->|(location & nl & HL & ->)]; [split; assumption|].
      pose proof (HkL _ _ HL) as Hid.
      split.
      * apply (refs_insert_loc_same_links _ _ location);
          [rewrite Hid; exact HL | reflexivity | exact Hrefs].
      * split; [exact HkB|split; [|exact HkO]]. cbn [locations].
        apply ids_insert; [exact HkL | reflexivity].
    + unfold locationsService_remove, locationsService_findOne, locationsRepository_findById,
        locationsRepository_delete, mbind, M_bind, mret, M_ret, throw, log, set_db.
      cbn. destruct (locations (db w) !! id); cbn; [|split; assumption].
      split; [apply refs_delete_loc; exact Hrefs|].
      split; [exact HkB|split; [|exact HkO]]. cbn [locations].
      apply ids_delete. exact HkL.
    + rewrite brandsService_create_steps. cbv zeta.
      destruct (head _); cbn [snd db log]; [split; assumption|].
      destruct (has_empty_key _); cbn [snd db log set_db]; [split; assumption|].
      split; [exact Hrefs|].
      split; [|split; [exact HkL | exact HkO]]. cbn [brands].
      apply ids_insert; [exact HkB | reflexivity].
    + destruct (brandsService_update_db toLowerCase w id now dto)
        as [->|(brand & b' & HB & -> & Hb')]; [split; assumption|].
      split; [exact Hrefs|].
      split; [|split; [exact HkL | exact HkO]]. cbn [brands].
      apply ids_insert; [exact HkB | exact Hb'].
    + unfold brandsService_remove, brandsService_findOne, brandsRepository_findById,
        brandsRepository_delete, mbind, M_bind, mret, M_ret, throw, log, set_db.
      cbn. destruct (brands (db w) !! id); cbn; [|split; assumption].
      split; [exact Hrefs|].
      split; [|split; [exact HkL | exact HkO]]. cbn [brands].
      apply ids_delete. exact HkB.
  - intros w offerId locationId offer location HO HL Hh. cbn [run_sys].
    unfold offersService_remove, offersService_findOne, offersRepository_findById,
      offersRepository_delete, mbind, M_bind, mret, M_ret, throw, log, set_db.
    cbn. rewrite HO. cbn.
    split; [reflexivity|]. split; [apply lookup_delete_eq|]. split; [exact HL|].
    intros Hr. destruct (Hr _ _ _ HL Hh) as (O & HO' & _). cbn in HO'.
    rewrite lookup_delete_eq in HO'. discriminate HO'.
Qed.

Lemma offerIds_linked_except_offer_remove_witness :
  (loc_refs_linked (db (run_sys latin1_toLowerCase (OpLinkTo "o1" "l1" "t1") sample_world)) /\
   keys_are_ids (db (run_sys latin1_toLowerCase (OpLinkTo "o1" "l1" "t1") sample_world))) /\
  (let w := run_sys latin1_toLowerCase (OpLinkTo "o1" "l1" "t1") sample_world in
   fst (offersService_remove "o1" w) = inr tt /\
   offers (db (run_sys latin1_toLowerCase (OpOfferRemove "o1") w)) !! "o1" = None /\
   locations (db (run_sys latin1_toLowerCase (OpOfferRemove "o1") w)) !! "l1"
     = Some (link_loc loc1 "o1" "t1") /\
   ~ loc_refs_linked (db (run_sys latin1_toLowerCase (OpOfferRemove "o1") w))).
Proof.
  split.
  - apply (proj1 (offerIds_linked_except_offer_remove latin1_toLowerCase));
      [intros id; discriminate | exact I | exact sample_keys | exact sample_refs].
  - cbv zeta.
    apply (proj2 (offerIds_linked_except_offer_remove latin1_toLowerCase) _ "o1" "l1"
             (link_offer offer1 "l1" "t1")); vm_compute; reflexivity.
Defined.
